(** * s3-manager: the storage service, the dashboard handlers and the file browser

    A shallow embedding of [S3Service] (src/services/S3Service.ts), of the
    handlers of [Index] (src/pages/Index.tsx) and of the pure parts of
    [FileBrowser] (src/components/FileBrowser.tsx).

    Conventions.
    - A JavaScript string is a [string]; its code units are the characters.
    - A JavaScript number that holds a byte count or a time stamp is a [Z];
      a [Date] is its [getTime()] value.
    - An [async] method is a computation in the monad [M]: it threads the
      state of the outside world and the trace of the requests issued, and
      ends by returning a value or by throwing one.
    - [console.log] and [console.error] are diagnostics and are left out. *)

From Stdlib Require Import ZArith Ascii Lia Permutation Sorted.
From Stdlib Require String.
From stdpp Require Import base option list gmap strings.

Local Open Scope Z_scope.

(** ** JavaScript string primitives used by the sources *)

Module Js.

(** [s.length] *)
Definition length (s : string) : nat := String.length s.

(** [s.startsWith(p)] *)
Fixpoint startsWith (s p : string) {struct p} : bool :=
  match p with
  | EmptyString => true
  | String c p' =>
      match s with
      | EmptyString => false
      | String d s' => if Ascii.eqb c d then startsWith s' p' else false
      end
  end.

(** [s.slice(n)] and [s.substring(n)] for an index [n >= 0] *)
Fixpoint slice (n : nat) (s : string) : string :=
  match n with
  | O => s
  | S n' => match s with EmptyString => EmptyString | String _ s' => slice n' s' end
  end.

(** [s.substring(0, n)] for an index [n >= 0] *)
Fixpoint substring0 (n : nat) (s : string) : string :=
  match n with
  | O => EmptyString
  | S n' => match s with EmptyString => EmptyString | String c s' => String c (substring0 n' s') end
  end.

(** [s.endsWith(p)] *)
Definition endsWith (s p : string) : bool :=
  if (length p <=? length s)%nat
  then String.eqb (slice (length s - length p) s) p
  else false.

(** [s.includes(t)] *)
Fixpoint includes (s t : string) : bool :=
  startsWith s t ||
  match s with
  | EmptyString => false
  | String _ s' => includes s' t
  end.

(** [s.replace(pat, rep)] with a string pattern: the first occurrence only.
    The sources only call it with the replacement [""], which holds no
    [$] pattern. *)
Fixpoint replace (pat rep s : string) : string :=
  if startsWith s pat then rep +:+ slice (length pat) s
  else match s with
       | EmptyString => EmptyString
       | String c s' => String c (replace pat rep s')
       end.

(** [s.split(sep)] for a separator of one character; never the empty array *)
Fixpoint split (sep : ascii) (s : string) : list string :=
  match s with
  | EmptyString => [EmptyString]
  | String c s' =>
      if Ascii.eqb c sep then EmptyString :: split sep s'
      else match split sep s' with
           | h :: t => String c h :: t
           | [] => [String c EmptyString]
           end
  end.

(** [parts.join(sep)] *)
Fixpoint join (sep : string) (parts : list string) : string :=
  match parts with
  | [] => EmptyString
  | [p] => p
  | p :: rest => p +:+ sep +:+ join sep rest
  end.

(** [s.lastIndexOf(c)] for a pattern of one character; [-1] when absent.
    [i] is the index of the first character of [s] in the whole string. *)
Fixpoint lastIndexOf_from (i : Z) (c : ascii) (s : string) : Z :=
  match s with
  | EmptyString => -1
  | String d s' =>
      let later := lastIndexOf_from (i + 1) c s' in
      if 0 <=? later then later
      else if Ascii.eqb d c then i else -1
  end.

Definition lastIndexOf (c : ascii) (s : string) : Z := lastIndexOf_from 0 c s.

(** Truthiness of a string value that may be [undefined] *)
Definition truthy (o : option string) : option string :=
  match o with
  | Some EmptyString => None
  | other => other
  end.

End Js.

(** ** src/types/s3Types.ts *)

Record S3Credentials := {
  accessKeyId : string;
  secretAccessKey : string;
  region : string;
  bucketName : string;
}.

Inductive FileKind := file | folder.

Global Instance FileKind_eq_dec : EqDecision FileKind.
Proof. solve_decision. Defined.

Module FileItem.
Record t := mk {
  key : string;
  name : string;
  size : Z;
  lastModified : Z;
  type : FileKind;
  mimeType : option string;
  extension : option string;
}.
End FileItem.
Abbreviation FileItem := FileItem.t.

Inductive FileType :=
  all | images | videos | audio | documents | code | archives | others.
Inductive SortBy := by_name | by_size | by_lastModified.
Inductive SortOrder := asc | desc.

Global Instance FileType_eq_dec : EqDecision FileType.
Proof. solve_decision. Defined.

(** ** The vendor client: commands, outputs, thrown values *)

Definition bytes := list Byte.byte.

(** What a [catch] clause receives: an [Error] with its message, or any other
    value. *)
Inductive Thrown :=
| JsError (message : string)
| NonError.

Inductive Outcome (A : Type) :=
| Return (a : A)
| Throw (e : Thrown).
Arguments Return {A} a.
Arguments Throw {A} e.

(** The [Body] of a put: a [Uint8Array] or a string. *)
Inductive BodyInput :=
| BodyBytes (b : bytes)
| BodyString (s : string).

Inductive Command :=
| ListObjectsV2Command (Bucket : string) (Prefix Delimiter : option string) (MaxKeys : option Z)
| GetObjectCommand (Bucket Key : string)
| PutObjectCommand (Bucket Key : string) (Body : BodyInput)
    (ContentType : option string) (ContentLength : option Z)
| DeleteObjectCommand (Bucket Key : string)
| CopyObjectCommand (Bucket CopySource Key : string).

Record CommonPrefix := { Prefix : option string }.

Record S3Object := {
  Key : option string;
  Size : option Z;
  LastModified : option Z;
}.

(** The output of a command; a field that the output does not carry reads as
    [undefined], here [None]. [transformToByteArray] is the result that
    reading the body stream ends with. *)
Record Output := {
  CommonPrefixes : option (list CommonPrefix);
  Contents : option (list S3Object);
  Body : option (Outcome bytes);
}.

Definition emptyOutput : Output :=
  {| CommonPrefixes := None; Contents := None; Body := None |}.

(** A browser [File]. *)
Module File.
Record t := mk {
  name : string;
  type : string;
  size : Z;
  arrayBuffer : Outcome bytes;
}.
End File.

Record S3ClientConfig := {
  cfg_region : string;
  cfg_accessKeyId : string;
  cfg_secretAccessKey : string;
}.

(** What leaves the program: a command sent through the client (with the
    value it threw, if it threw), a URL presigned, a file handed to the
    browser to save. *)
Inductive Event :=
| Sent (c : Command) (failure : option Thrown)
| Presigned (c : Command) (expiresIn : Z) (failure : option Thrown)
| Saved (fileName : string) (content : bytes).

(** The platform: the storage client, the presigner and the clock, over a
    state [World] of everything outside the program. *)
Record Platform (World : Type) := {
  send : S3ClientConfig → Command → World → Outcome Output * World;
  getSignedUrl : S3ClientConfig → Command → Z → World → Outcome string * World;
  newDate : World → Z * World;
}.
Arguments send {World} _ _ _ _.
Arguments getSignedUrl {World} _ _ _ _ _.
Arguments newDate {World} _ _.

(** The dashboard state of [Index] that the handlers write. *)
Record Ui := {
  ui_files : list FileItem;
  ui_currentPath : string;
  ui_selectedFile : option FileItem;
  ui_selectedFiles : list FileItem;
  ui_loading : bool;
}.

Record State (World : Type) := {
  world : World;
  trace : list Event;
  ui : Ui;
}.
Arguments world {World} _.
Arguments trace {World} _.
Arguments ui {World} _.

(** ** The monad of asynchronous computations *)

Definition M (World A : Type) : Type := State World → Outcome A * State World.

Section Monad.
Context {World : Type}.

Definition ret {A} (a : A) : M World A := fun s => (Return a, s).

Definition throw {A} (e : Thrown) : M World A := fun s => (Throw e, s).

Definition bind {A B} (m : M World A) (k : A → M World B) : M World B :=
  fun s =>
    match m s with
    | (Return a, s') => k a s'
    | (Throw e, s') => (Throw e, s')
    end.

(** [try { m } catch (error) { h error }] *)
Definition try_catch {A} (m : M World A) (h : Thrown → M World A) : M World A :=
  fun s =>
    match m s with
    | (Return a, s') => (Return a, s')
    | (Throw e, s') => h e s'
    end.

(** [try { m } finally { f }], for a [finally] block that does not throw *)
Definition try_finally {A} (m : M World A) (f : State World → State World) : M World A :=
  fun s => let '(r, s') := m s in (r, f s').

(** [await] of a value that is already settled *)
Definition settle {A} (o : Outcome A) : M World A := fun s => (o, s).

Definition emit (e : Event) : M World unit :=
  fun s => (Return tt, {| world := world s; trace := trace s ++ [e]; ui := ui s |}).

Definition modify_ui (f : Ui → Ui) : M World unit :=
  fun s => (Return tt, {| world := world s; trace := trace s; ui := f (ui s) |}).

(** [for (const x of l) { acc = body acc x }] *)
Fixpoint for_of {A B} (l : list A) (body : B → A → M World B) (acc : B) : M World B :=
  match l with
  | [] => ret acc
  | x :: rest => bind (body acc x) (for_of rest body)
  end.

End Monad.

Notation "'let!' x ':=' m 'in' k" := (bind m (fun x => k))
  (at level 10, x pattern, m at level 100, k at level 200).
Notation "m ';;' k" := (bind m (fun _ => k))
  (at level 100, k at level 200, right associativity).

(** ** src/services/S3Service.ts *)

Record S3Service := {
  s3Client : S3ClientConfig;
  this_bucketName : string;
}.

(** [constructor(credentials)] *)
Definition new_S3Service (credentials : S3Credentials) : S3Service :=
  {| s3Client := {| cfg_region := region credentials;
                    cfg_accessKeyId := accessKeyId credentials;
                    cfg_secretAccessKey := secretAccessKey credentials |};
     this_bucketName := bucketName credentials |}.

(** [error instanceof Error ? error.message : "Unknown error"] *)
Definition messageOf (error : Thrown) : string :=
  match error with
  | JsError message => message
  | NonError => "Unknown error"
  end.

(** The table of [getMimeType]: its own entries *)
Definition mimeTypes : list (string * string) :=
  [ ("jpg", "image/jpeg"); ("jpeg", "image/jpeg"); ("png", "image/png");
    ("gif", "image/gif"); ("svg", "image/svg+xml"); ("bmp", "image/bmp");
    ("webp", "image/webp");
    ("mp4", "video/mp4"); ("avi", "video/avi"); ("mov", "video/quicktime");
    ("wmv", "video/x-ms-wmv"); ("flv", "video/x-flv"); ("webm", "video/webm");
    ("mp3", "audio/mpeg"); ("wav", "audio/wav"); ("ogg", "audio/ogg");
    ("m4a", "audio/mp4"); ("flac", "audio/flac");
    ("pdf", "application/pdf"); ("doc", "application/msword");
    ("docx", "application/vnd.openxmlformats-officedocument.wordprocessingml.document");
    ("xls", "application/vnd.ms-excel");
    ("xlsx", "application/vnd.openxmlformats-officedocument.spreadsheetml.sheet");
    ("ppt", "application/vnd.ms-powerpoint");
    ("pptx", "application/vnd.openxmlformats-officedocument.presentationml.presentation");
    ("js", "text/javascript"); ("ts", "text/typescript"); ("html", "text/html");
    ("css", "text/css"); ("json", "application/json"); ("xml", "application/xml");
    ("txt", "text/plain"); ("md", "text/markdown");
    ("zip", "application/zip"); ("rar", "application/x-rar-compressed");
    ("7z", "application/x-7z-compressed"); ("tar", "application/x-tar");
    ("gz", "application/gzip") ].

Fixpoint lookup_table (table : list (string * string)) (k : string) : option string :=
  match table with
  | [] => None
  | (k', v) :: rest => if String.eqb k' k then Some v else lookup_table rest k
  end.

(** The names of the properties that the table, an object literal, inherits
    from [Object.prototype]: functions, and for [__proto__] the prototype
    itself. None of them is a key of the table. *)
Definition Object_prototype : list string :=
  [ "constructor"; "__defineGetter__"; "__defineSetter__"; "hasOwnProperty";
    "__lookupGetter__"; "__lookupSetter__"; "isPrototypeOf"; "propertyIsEnumerable";
    "toString"; "valueOf"; "__proto__"; "toLocaleString" ].

(** What [getMimeType] returns: a string, or, although its declared type is
    [string], the inherited property that the lookup of such a name finds,
    which is truthy and not a string. *)
Inductive MimeValue :=
| MimeString (mimeType : string)
| Inherited (property : string).

(** [mimeTypes[extension] || "application/octet-stream"] *)
Definition getMimeType (extension : string) : MimeValue :=
  match Js.truthy (lookup_table mimeTypes extension) with
  | Some m => MimeString m
  | None =>
      if existsb (String.eqb extension) Object_prototype then Inherited extension
      else MimeString "application/octet-stream"
  end.

(** [Array.prototype.sort(compare)]: a stable sort; [compare a b] is negative,
    zero or positive. The model is the stable insertion sort, which agrees
    with every stable sort when [compare] is a consistent ordering. *)
Section Sort.
Context {A : Type} (compare : A → A → Z).

Fixpoint insert_sorted (x : A) (l : list A) : list A :=
  match l with
  | [] => [x]
  | y :: rest => if compare x y <=? 0 then x :: y :: rest else y :: insert_sorted x rest
  end.

Fixpoint sort (l : list A) : list A :=
  match l with
  | [] => []
  | x :: rest => insert_sorted x (sort rest)
  end.
End Sort.

Section Service.
Context {World : Type} (P : Platform World).
(** [String.prototype.toLowerCase] and [String.prototype.localeCompare] of
    the host: any functions. *)
Variable toLowerCase : string → string.
Variable localeCompare : string → string → Z.

Variable this : S3Service.

(** [await this.s3Client.send(command)], recorded in the trace *)
Definition client_send (command : Command) : M World Output :=
  fun s =>
    let '(r, w) := send P (s3Client this) command (world s) in
    (r, {| world := w;
           trace := trace s ++ [Sent command
                                  match r with Return _ => None | Throw e => Some e end];
           ui := ui s |}).

(** [await getSignedUrl(this.s3Client, command, { expiresIn })] *)
Definition client_getSignedUrl (command : Command) (expiresIn : Z) : M World string :=
  fun s =>
    let '(r, w) := getSignedUrl P (s3Client this) command expiresIn (world s) in
    (r, {| world := w;
           trace := trace s ++ [Presigned command expiresIn
                                  match r with Return _ => None | Throw e => Some e end];
           ui := ui s |}).

(** [new Date()] *)
Definition new_Date : M World Z :=
  fun s =>
    let '(d, w) := newDate P (world s) in
    (Return d, {| world := w; trace := trace s; ui := ui s |}).

(** [catch (error) { throw new Error(`<prefix>${...}`) }] *)
Definition rethrow {A} (prefix : string) (error : Thrown) : M World A :=
  throw (JsError (prefix +:+ messageOf error)).

Definition testConnection : M World unit :=
  try_catch
    (let! _ := client_send
                 (ListObjectsV2Command (this_bucketName this) None None (Some 1)) in
     ret tt)
    (rethrow "Connection failed: ").

(** The body of the loop over [response.CommonPrefixes] *)
Definition push_folder (prefix : string) (files : list FileItem) (folderPrefix : CommonPrefix)
  : M World (list FileItem) :=
  match Js.truthy (Prefix folderPrefix) with
  | Some p =>
      let folderName := Js.replace "/" "" (Js.slice (Js.length prefix) p) in
      match Js.truthy (Some folderName) with
      | Some _ =>
          let! now := new_Date in
          ret (files ++ [FileItem.mk p folderName 0 now folder None None])
      | None => ret files
      end
  | None => ret files
  end.

(** The body of the loop over [response.Contents]. The field [mimeType] of
    [FileItem] is declared a string: where [getMimeType] returns an inherited
    property instead, an entry of that type has no value to show for it, and
    the entry of the model carries no MIME type. *)
Definition push_file (prefix : string) (files : list FileItem) (object : S3Object)
  : M World (list FileItem) :=
  match Js.truthy (Key object) with
  | Some k =>
      if negb (String.eqb k prefix) && negb (Js.endsWith k "/") then
        let fileName := Js.slice (Js.length prefix) k in
        let extension := toLowerCase <$> last (Js.split "." fileName) in
        let mimeType :=
          match getMimeType (default "" (Js.truthy extension)) with
          | MimeString m => Some m
          | Inherited _ => None
          end in
        let size := match Size object with Some 0 | None => 0 | Some n => n end in
        let! lastModified :=
          match LastModified object with Some d => ret d | None => new_Date end in
        ret (files ++ [FileItem.mk k fileName size lastModified file mimeType extension])
      else ret files
  | None => ret files
  end.

(** The comparison function of the listing *)
Definition compare_listing (a b : FileItem) : Z :=
  if decide (FileItem.type a ≠ FileItem.type b)
  then (if decide (FileItem.type a = folder) then -1 else 1)
  else localeCompare (FileItem.name a) (FileItem.name b).

Definition listFiles (prefix : string) : M World (list FileItem) :=
  try_catch
    (let! response := client_send
                        (ListObjectsV2Command (this_bucketName this)
                           (Some prefix) (Some "/") None) in
     let files : list FileItem := [] in
     let! files :=
       match CommonPrefixes response with
       | Some prefixes => for_of prefixes (push_folder prefix) files
       | None => ret files
       end in
     let! files :=
       match Contents response with
       | Some contents => for_of contents (push_file prefix) files
       | None => ret files
       end in
     ret (sort compare_listing files))
    (rethrow "Failed to list files: ").

Definition uploadFile (f : File.t) (path : string) : M World unit :=
  try_catch
    (let key := match Js.truthy (Some path) with
                | Some _ => path +:+ File.name f
                | None => File.name f
                end in
     let! fileBuffer := settle (File.arrayBuffer f) in
     let! _ := client_send
                 (PutObjectCommand (this_bucketName this) key (BodyBytes fileBuffer)
                    (Some (File.type f)) (Some (File.size f))) in
     ret tt)
    (rethrow "Upload failed: ").

Definition deleteFile (key : string) : M World unit :=
  try_catch
    (let! _ := client_send (DeleteObjectCommand (this_bucketName this) key) in
     ret tt)
    (rethrow "Delete failed: ").

(** [pathParts[pathParts.length - 1] = newName; pathParts.join("/")];
    [split] never returns the empty array, so the index is in range. *)
Definition renamedKey (oldKey newName : string) : string :=
  let pathParts := Js.split "/" oldKey in
  let pathParts := <[(List.length pathParts - 1)%nat := newName]> pathParts in
  Js.join "/" pathParts.

Definition renameFile (oldKey newName : string) : M World unit :=
  try_catch
    (let newKey := renamedKey oldKey newName in
     let! _ := client_send
                 (CopyObjectCommand (this_bucketName this)
                    (this_bucketName this +:+ "/" +:+ oldKey) newKey) in
     deleteFile oldKey)
    (rethrow "Rename failed: ").

Definition createFolder (folderPath : string) : M World unit :=
  try_catch
    (let! _ := client_send
                 (PutObjectCommand (this_bucketName this) folderPath (BodyString "")
                    None None) in
     ret tt)
    (rethrow "Create folder failed: ").

Definition downloadFile (key fileName : string) : M World unit :=
  try_catch
    (let! response := client_send (GetObjectCommand (this_bucketName this) key) in
     match Body response with
     | Some body =>
         let! blob := settle body in
         emit (Saved fileName blob)
     | None => ret tt
     end)
    (rethrow "Download failed: ").

Definition generatePresignedUrl (key : string) (expiresIn : Z) : M World string :=
  try_catch
    (client_getSignedUrl (GetObjectCommand (this_bucketName this) key) expiresIn)
    (rethrow "Generate URL failed: ").

Definition getFileUrl (key : string) : M World string :=
  try_catch
    (client_getSignedUrl (GetObjectCommand (this_bucketName this) key) 3600)
    (rethrow "Get file URL failed: ").

(** The body of the loop of [downloadFolderContents] *)
Definition push_content (folderKey : string) (files : list (string * bytes))
    (object : S3Object) : M World (list (string * bytes)) :=
  match Js.truthy (Key object) with
  | Some k =>
      if negb (Js.endsWith k "/") then
        let! fileResponse := client_send (GetObjectCommand (this_bucketName this) k) in
        match Body fileResponse with
        | Some body =>
            let! arrayBuffer := settle body in
            ret (files ++ [(Js.replace folderKey "" k, arrayBuffer)])
        | None => ret files
        end
      else ret files
  | None => ret files
  end.

Definition downloadFolderContents (folderKey : string) : M World (list (string * bytes)) :=
  try_catch
    (let! response := client_send
                        (ListObjectsV2Command (this_bucketName this)
                           (Some folderKey) None None) in
     match Contents response with
     | Some contents => for_of contents (push_content folderKey) []
     | None => ret []
     end)
    (rethrow "Download folder failed: ").

End Service.

(** ** src/pages/Index.tsx: the handlers of the dashboard

    A handler closes over the [credentials] and the [currentPath] of the
    render it was created in; each handler builds its own service object
    from the credentials. *)

Section Index.
Context {World : Type} (P : Platform World).
Variable toLowerCase : string → string.
Variable localeCompare : string → string → Z.

Variable credentials : option S3Credentials.
Variable currentPath : string.

Definition setLoading (b : bool) (u : Ui) : Ui :=
  {| ui_files := ui_files u; ui_currentPath := ui_currentPath u;
     ui_selectedFile := ui_selectedFile u; ui_selectedFiles := ui_selectedFiles u;
     ui_loading := b |}.

Definition setFiles (l : list FileItem) (u : Ui) : Ui :=
  {| ui_files := l; ui_currentPath := ui_currentPath u;
     ui_selectedFile := ui_selectedFile u; ui_selectedFiles := ui_selectedFiles u;
     ui_loading := ui_loading u |}.

Definition setCurrentPath (p : string) (u : Ui) : Ui :=
  {| ui_files := ui_files u; ui_currentPath := p;
     ui_selectedFile := ui_selectedFile u; ui_selectedFiles := ui_selectedFiles u;
     ui_loading := ui_loading u |}.

Definition setSelectedFiles (l : list FileItem) (u : Ui) : Ui :=
  {| ui_files := ui_files u; ui_currentPath := ui_currentPath u;
     ui_selectedFile := ui_selectedFile u; ui_selectedFiles := l;
     ui_loading := ui_loading u |}.

Definition setSelectedFile (f : option FileItem) (u : Ui) : Ui :=
  {| ui_files := ui_files u; ui_currentPath := ui_currentPath u;
     ui_selectedFile := f; ui_selectedFiles := ui_selectedFiles u;
     ui_loading := ui_loading u |}.

Definition on_state (f : Ui → Ui) (s : State World) : State World :=
  {| world := world s; trace := trace s; ui := f (ui s) |}.

Definition loadFiles (path : string) : M World unit :=
  match credentials with
  | None => ret tt
  | Some creds =>
      modify_ui (setLoading true) ;;
      try_finally
        (try_catch
           (let s3Service := new_S3Service creds in
            let! fileList := listFiles P toLowerCase localeCompare s3Service path in
            modify_ui (setFiles fileList) ;;
            modify_ui (setCurrentPath path))
           (fun _ => ret tt))
        (on_state (setLoading false))
  end.

Definition handleUpload (files : list File.t) (path : string) : M World unit :=
  match credentials with
  | None => ret tt
  | Some creds =>
      let s3Service := new_S3Service creds in
      for_of files
        (fun _ f => try_catch (uploadFile P s3Service f path) (fun error => throw error))
        tt ;;
      loadFiles currentPath
  end.

Definition handleDelete (filesToDelete : list FileItem) : M World unit :=
  match credentials with
  | None => ret tt
  | Some creds =>
      let s3Service := new_S3Service creds in
      for_of filesToDelete
        (fun _ f => try_catch (deleteFile P s3Service (FileItem.key f))
                      (fun error => throw error))
        tt ;;
      loadFiles currentPath ;;
      modify_ui (setSelectedFiles []) ;;
      modify_ui (setSelectedFile None)
  end.

Definition handleRename (f : FileItem) (newName : string) : M World unit :=
  match credentials with
  | None => ret tt
  | Some creds =>
      let s3Service := new_S3Service creds in
      try_catch
        (renameFile P s3Service (FileItem.key f) newName ;;
         loadFiles currentPath)
        (fun error => throw error)
  end.

Definition handleCreateFolder (folderName : string) : M World unit :=
  match credentials with
  | None => ret tt
  | Some creds =>
      let s3Service := new_S3Service creds in
      try_catch
        (let folderPath :=
           match Js.truthy (Some currentPath) with
           | Some _ => currentPath +:+ folderName +:+ "/"
           | None => folderName +:+ "/"
           end in
         createFolder P s3Service folderPath ;;
         loadFiles currentPath)
        (fun error => throw error)
  end.

End Index.

(** ** src/components/FileBrowser.tsx: the pure parts *)

Section FileBrowser.
Variable toLowerCase : string → string.
Variable localeCompare : string → string → Z.
(** [String.prototype.trim] of the host *)
Variable trim : string → string.

(** [list.includes(x)] on an array of strings *)
Definition array_includes (l : list string) (x : string) : bool :=
  existsb (String.eqb x) l.

(** The inner [switch] of the case ["others"] *)
Definition in_category (mimeType extension : string) (type : FileType) : bool :=
  match type with
  | images => Js.startsWith mimeType "image/"
  | videos => Js.startsWith mimeType "video/"
  | audio => Js.startsWith mimeType "audio/"
  | documents =>
      array_includes ["pdf"; "doc"; "docx"; "xls"; "xlsx"; "ppt"; "pptx"] extension
  | code =>
      array_includes ["js"; "ts"; "html"; "css"; "json"; "xml"; "txt"; "md"] extension
  | archives => array_includes ["zip"; "rar"; "7z"; "tar"; "gz"] extension
  | _ => false
  end.

(** The callback of the type filter *)
Definition type_filter (filterType : FileType) (f : FileItem) : bool :=
  if decide (FileItem.type f = folder) then false
  else
    let extension := default "" (Js.truthy (toLowerCase <$> FileItem.extension f)) in
    let mimeType := default "" (Js.truthy (FileItem.mimeType f)) in
    match filterType with
    | images => Js.startsWith mimeType "image/"
    | videos => Js.startsWith mimeType "video/"
    | audio => Js.startsWith mimeType "audio/"
    | documents =>
        array_includes ["pdf"; "doc"; "docx"; "xls"; "xlsx"; "ppt"; "pptx"] extension
    | code =>
        array_includes ["js"; "ts"; "html"; "css"; "json"; "xml"; "txt"; "md";
                        "py"; "java"; "cpp"; "c"] extension
    | archives => array_includes ["zip"; "rar"; "7z"; "tar"; "gz"] extension
    | others =>
        negb (existsb (in_category mimeType extension)
                [images; videos; audio; documents; code; archives])
    | all => true
    end.

(** The callback of the search filter *)
Definition search_filter (searchTerm : string) (f : FileItem) : bool :=
  Js.includes (toLowerCase (FileItem.name f)) (toLowerCase searchTerm).

(** The comparison function of the display *)
Definition compare_display (sortBy : SortBy) (sortOrder : SortOrder) (a b : FileItem) : Z :=
  if decide (FileItem.type a ≠ FileItem.type b)
  then (if decide (FileItem.type a = folder) then -1 else 1)
  else
    let comparison :=
      match sortBy with
      | by_name => localeCompare (FileItem.name a) (FileItem.name b)
      | by_size => FileItem.size a - FileItem.size b
      | by_lastModified => FileItem.lastModified a - FileItem.lastModified b
      end in
    match sortOrder with
    | desc => - comparison
    | asc => comparison
    end.

(** The value of [filtered] when the sort begins *)
Definition filtered_files (files : list FileItem) (searchTerm : string)
    (filterType : FileType) : list FileItem :=
  let filtered := files in
  let filtered :=
    match Js.truthy (Some searchTerm) with
    | Some _ => List.filter (search_filter searchTerm) filtered
    | None => filtered
    end in
  if decide (filterType ≠ all)
  then List.filter (type_filter filterType) filtered
  else filtered.

(** [filtered.sort(...)] sorts in place and returns the array; the value
    returned is what is displayed. *)
Definition filteredAndSortedFiles (files : list FileItem) (searchTerm : string)
    (filterType : FileType) (sortBy : SortBy) (sortOrder : SortOrder) : list FileItem :=
  sort (compare_display sortBy sortOrder) (filtered_files files searchTerm filterType).

(** [getFileNameAndExtension(fileName, isFile)]: the pair of [name] and
    [extension] *)
Definition getFileNameAndExtension (fileName : string) (isFile : bool) : string * string :=
  if negb isFile then (fileName, "")
  else
    let lastDotIndex := Js.lastIndexOf "." fileName in
    if lastDotIndex <=? 0 then (fileName, "")
    else (Js.substring0 (Z.to_nat lastDotIndex) fileName,
          Js.slice (Z.to_nat lastDotIndex) fileName).

(** [handleRename] of the rename dialog: the arguments of the call to
    [onRename], when it is made. *)
Definition dialog_handleRename (fileToRename : option FileItem) (renameName : string)
  : option (FileItem * string) :=
  match fileToRename with
  | Some f =>
      match Js.truthy (Some (trim renameName)) with
      | Some _ =>
          let extension :=
            snd (getFileNameAndExtension (FileItem.name f)
                   (bool_decide (FileItem.type f = file))) in
          let finalName :=
            if decide (FileItem.type f = file)
            then trim renameName +:+ extension
            else trim renameName in
          Some (f, finalName)
      | None => None
      end
  | None => None
  end.

(** [handleCreateFolder] of the create-folder dialog: the argument of the
    call to [onCreateFolder], when it is made. *)
Definition dialog_handleCreateFolder (newFolderName : string) : option string :=
  match Js.truthy (Some (trim newFolderName)) with
  | Some _ => Some (trim newFolderName)
  | None => None
  end.

End FileBrowser.

(** ** An in-memory bucket

    The managed store is not part of the sources. This is one bucket of it,
    as far as its documented contract goes: a map from keys to objects, a
    policy that denies some actions on some keys, and a clock. A copy names
    its source as [bucket/key] in URL encoding, which the store decodes as
    the managed store does; the store refuses to copy an object onto itself,
    as the managed store does when no metadata changes. The order in which
    a listing reports the keys is the order of
    the map, not the order of the keys. *)

Module MemS3.

Inductive Action := GetObject | PutObject | DeleteObject.

Global Instance Action_eq_dec : EqDecision Action.
Proof. solve_decision. Defined.

Record StoredObject := {
  content : bytes;
  contentType : option string;
  modified : Z;
}.

Record t := {
  bucket : string;
  objects : gmap string StoredObject;
  denied : list (Action * string);
  clock : Z;
}.

(** The contents of the bucket, key by key *)
Definition contents (w : t) : gmap string bytes := content <$> objects w.

Definition with_objects (w : t) (o : gmap string StoredObject) : t :=
  {| bucket := bucket w; objects := o; denied := denied w; clock := clock w |}.

Definition is_denied (w : t) (a : Action) (k : string) : bool :=
  bool_decide ((a, k) ∈ denied w).

Definition AccessDenied {A} : Outcome A := Throw (JsError "Access Denied").
Definition NoSuchBucket {A} : Outcome A :=
  Throw (JsError "The specified bucket does not exist").
Definition NoSuchKey {A} : Outcome A :=
  Throw (JsError "The specified key does not exist.").
Definition InvalidRequest {A} : Outcome A :=
  Throw (JsError "This copy request is illegal because it is trying to copy an object to itself without changing the object's metadata, storage class, website redirect location or encryption attributes.").

Definition body_bytes (b : BodyInput) : bytes :=
  match b with
  | BodyBytes b => b
  | BodyString s => String.list_byte_of_string s
  end.

(** The part of [s] up to and including the first [delim], if any *)
Fixpoint upto (delim s : string) : option string :=
  if Js.startsWith s delim then Some delim
  else match s with
       | EmptyString => None
       | String c s' => String c <$> upto delim s'
       end.

Definition listed (k : string) (o : StoredObject) : S3Object :=
  {| Key := Some k; Size := Some (Z.of_nat (List.length (content o)));
     LastModified := Some (modified o) |}.

Definition nonempty {A} (l : list A) : option (list A) :=
  match l with [] => None | _ => Some l end.

Definition list_objects (w : t) (prefix delimiter : option string) (maxKeys : option Z)
  : Output :=
  let pre := default "" prefix in
  let matching :=
    List.filter (fun kv => Js.startsWith (fst kv) pre) (map_to_list (objects w)) in
  let matching :=
    match maxKeys with
    | Some n => take (Z.to_nat n) matching
    | None => matching
    end in
  let rolled (kv : string * StoredObject) : option string :=
    match Js.truthy delimiter with
    | Some d => (fun r => pre +:+ r) <$> upto d (Js.slice (Js.length pre) (fst kv))
    | None => None
    end in
  let contents :=
    omap (fun kv => match rolled kv with
                    | None => Some (listed (fst kv) (snd kv))
                    | Some _ => None
                    end) matching in
  let prefixes := remove_dups (omap rolled matching) in
  {| CommonPrefixes := nonempty ((fun p => {| Prefix := Some p |}) <$> prefixes);
     Contents := nonempty contents;
     Body := None |}.

(** The value of a hexadecimal digit *)
Definition hex_digit (c : ascii) : option nat :=
  let n := nat_of_ascii c in
  if ((48 <=? n) && (n <=? 57))%nat then Some (n - 48)%nat
  else if ((65 <=? n) && (n <=? 70))%nat then Some (n - 55)%nat
  else if ((97 <=? n) && (n <=? 102))%nat then Some (n - 87)%nat
  else None.

(** URL decoding: an escape [%hh] of two hexadecimal digits stands for the
    character of that code, every other character for itself. *)
Fixpoint url_decode (s : string) : string :=
  match s with
  | EmptyString => EmptyString
  | String c tail =>
      match tail with
      | String h (String l rest) =>
          match (if Ascii.eqb c "%" then hex_digit h else None), hex_digit l with
          | Some a, Some b => String (ascii_of_nat (16 * a + b)) (url_decode rest)
          | _, _ => String c (url_decode tail)
          end
      | _ => String c (url_decode tail)
      end
  end.

(** The key that a copy source names in this bucket: the source is URL
    decoded, and what follows the name of the bucket and a slash is the key. *)
Definition source_key (w : t) (copySource : string) : option string :=
  let source := url_decode copySource in
  if Js.startsWith source (bucket w +:+ "/")
  then Some (Js.slice (Js.length (bucket w +:+ "/")) source)
  else None.

Definition exec (w : t) (command : Command) : Outcome Output * t :=
  match command with
  | ListObjectsV2Command b prefix delimiter maxKeys =>
      if String.eqb b (bucket w)
      then (Return (list_objects w prefix delimiter maxKeys), w)
      else (NoSuchBucket, w)
  | GetObjectCommand b k =>
      if negb (String.eqb b (bucket w)) then (NoSuchBucket, w)
      else if is_denied w GetObject k then (AccessDenied, w)
      else match objects w !! k with
           | Some o =>
               (Return {| CommonPrefixes := None; Contents := None;
                          Body := Some (Return (content o)) |}, w)
           | None => (NoSuchKey, w)
           end
  | PutObjectCommand b k body type _ =>
      if negb (String.eqb b (bucket w)) then (NoSuchBucket, w)
      else if is_denied w PutObject k then (AccessDenied, w)
      else (Return emptyOutput,
            with_objects w
              (<[k := {| content := body_bytes body; contentType := type;
                         modified := clock w |}]> (objects w)))
  | DeleteObjectCommand b k =>
      if negb (String.eqb b (bucket w)) then (NoSuchBucket, w)
      else if is_denied w DeleteObject k then (AccessDenied, w)
      else (Return emptyOutput, with_objects w (delete k (objects w)))
  | CopyObjectCommand b copySource k =>
      if negb (String.eqb b (bucket w)) then (NoSuchBucket, w)
      else match source_key w copySource with
           | None => (NoSuchBucket, w)
           | Some src =>
               if is_denied w GetObject src || is_denied w PutObject k
               then (AccessDenied, w)
               else match objects w !! src with
                    | None => (NoSuchKey, w)
                    | Some o =>
                        if String.eqb src k then (InvalidRequest, w)
                        else (Return emptyOutput,
                              with_objects w
                                (<[k := {| content := content o;
                                           contentType := contentType o;
                                           modified := clock w |}]> (objects w)))
                    end
           end
  end.

Definition presign (w : t) (command : Command) (expiresIn : Z) : Outcome string * t :=
  match command with
  | GetObjectCommand b k =>
      (Return ("https://" +:+ b +:+ ".s3.amazonaws.com/" +:+ k), w)
  | _ => (Throw NonError, w)
  end.

Definition tick (w : t) : Z * t :=
  (clock w, {| bucket := bucket w; objects := objects w; denied := denied w;
               clock := clock w + 1 |}).

Definition platform : Platform t :=
  {| send := fun _ command w => exec w command;
     getSignedUrl := fun _ command expiresIn w => presign w command expiresIn;
     newDate := tick |}.

End MemS3.

(** Host string functions for the examples: lower case and trimming on the
    ASCII range, comparison by code units. *)
Module Host.

Definition lower (c : ascii) : ascii :=
  let n := nat_of_ascii c in
  if ((65 <=? n) && (n <=? 90))%nat then ascii_of_nat (n + 32) else c.

Fixpoint toLowerCase (s : string) : string :=
  match s with
  | EmptyString => EmptyString
  | String c s' => String (lower c) (toLowerCase s')
  end.

Fixpoint trimStart (s : string) : string :=
  match s with
  | String c s' => if Ascii.is_space c then trimStart s' else s
  | EmptyString => EmptyString
  end.

Definition trim (s : string) : string :=
  String.rev (trimStart (String.rev (trimStart s))).

Definition localeCompare (a b : string) : Z :=
  match String.compare a b with
  | Lt => -1
  | Eq => 0
  | Gt => 1
  end.

End Host.

(** * Vocabulary of the properties *)

(** ** What a computation adds to the trace *)

Definition failure_of {A} (r : Outcome A) : option Thrown :=
  match r with
  | Return _ => None
  | Throw e => Some e
  end.

Definition failure (ev : Event) : option Thrown :=
  match ev with
  | Sent _ f => f
  | Presigned _ _ f => f
  | Saved _ _ => None
  end.

(** [emits m Q]: from every state, [m] appends some events [evs] to the
    trace, and [Q] holds of [evs] and of the outcome. *)
Definition emits {World A} (m : M World A) (Q : list Event → Outcome A → Prop) : Prop :=
  ∀ s, ∃ evs, trace (m s).2 = trace s ++ evs ∧ Q evs (m s).1.

(** Events that satisfy a predicate, whatever the outcome *)
Definition each {A} (φ : Event → Prop) (evs : list Event) (_ : Outcome A) : Prop :=
  Forall φ evs.

(** No event of [evs] is a call that failed. *)
Definition quiet (evs : list Event) : Prop := Forall (λ ev, failure ev = None) evs.

(** [guarded R evs r]: either no call failed, or exactly the last one did,
    nothing was issued after it, and the computation throws a value that [R]
    relates to the failed call and to the value the call threw. *)
Definition guarded {A} (R : Event → Thrown → Thrown → Prop)
    (evs : list Event) (r : Outcome A) : Prop :=
  quiet evs ∨
  ∃ pre ev e0 e,
    evs = pre ++ [ev] ∧ quiet pre ∧ failure ev = Some e0 ∧ r = Throw e ∧ R ev e0 e.

(** ** The operations of the service, as one type *)

Inductive Operation :=
| TestConnection
| ListFiles (prefix : string)
| UploadFile (f : File.t) (path : string)
| DeleteFile (key : string)
| RenameFile (oldKey newName : string)
| CreateFolder (folderPath : string)
| DownloadFile (key fileName : string)
| GeneratePresignedUrl (key : string) (expiresIn : Z)
| GetFileUrl (key : string)
| DownloadFolderContents (folderKey : string).

Section Operations.
Context {World : Type} (P : Platform World).
Variable toLowerCase : string → string.
Variable localeCompare : string → string → Z.
Variable this : S3Service.

(** The operation run for its effects and its failure *)
Definition void {A} (m : M World A) : M World unit := bind m (λ _, ret tt).

Definition perform (op : Operation) : M World unit :=
  match op with
  | TestConnection => testConnection P this
  | ListFiles prefix => void (listFiles P toLowerCase localeCompare this prefix)
  | UploadFile f path => uploadFile P this f path
  | DeleteFile key => deleteFile P this key
  | RenameFile oldKey newName => renameFile P this oldKey newName
  | CreateFolder folderPath => createFolder P this folderPath
  | DownloadFile key fileName => downloadFile P this key fileName
  | GeneratePresignedUrl key expiresIn => void (generatePresignedUrl P this key expiresIn)
  | GetFileUrl key => void (getFileUrl P this key)
  | DownloadFolderContents folderKey => void (downloadFolderContents P this folderKey)
  end.

(** The message that the operation puts before the message of the failure *)
Definition failure_prefix (op : Operation) : string :=
  match op with
  | TestConnection => "Connection failed: "
  | ListFiles _ => "Failed to list files: "
  | UploadFile _ _ => "Upload failed: "
  | DeleteFile _ => "Delete failed: "
  | RenameFile _ _ => "Rename failed: "
  | CreateFolder _ => "Create folder failed: "
  | DownloadFile _ _ => "Download failed: "
  | GeneratePresignedUrl _ _ => "Generate URL failed: "
  | GetFileUrl _ => "Get file URL failed: "
  | DownloadFolderContents _ => "Download folder failed: "
  end.
End Operations.

(** What precedes the message of the failed call in the message of the
    error that the operation throws: the prefix of the operation, and for
    a rename whose delete failed, the prefix of the delete after it. *)
Definition reported_prefix (op : Operation) (ev : Event) : string :=
  match op, ev with
  | RenameFile _ _, Sent (DeleteObjectCommand _ _) _ =>
      "Rename failed: " +:+ "Delete failed: "
  | _, _ => failure_prefix op
  end.

(** The bucket that a command names; a copy also names the bucket of its
    source, before the first slash of [CopySource]. *)
Definition command_targets (b : string) (command : Command) : Prop :=
  match command with
  | ListObjectsV2Command Bucket _ _ _
  | GetObjectCommand Bucket _
  | PutObjectCommand Bucket _ _ _ _
  | DeleteObjectCommand Bucket _ => Bucket = b
  | CopyObjectCommand Bucket CopySource _ =>
      Bucket = b ∧ Js.startsWith CopySource (b +:+ "/") = true
  end.

Definition targets (b : string) (ev : Event) : Prop :=
  match ev with
  | Sent command _ => command_targets b command
  | Presigned command _ _ => command_targets b command
  | Saved _ _ => True
  end.

(** The commands that change the bucket *)
Definition mutates (ev : Event) : bool :=
  match ev with
  | Sent (PutObjectCommand _ _ _ _ _) _
  | Sent (DeleteObjectCommand _ _) _
  | Sent (CopyObjectCommand _ _ _) _ => true
  | _ => false
  end.

(** ** The listing, the display and the dialogs *)

(** Where an entry of the listing comes from: a folder entry from a common
    prefix of the response, a file entry from an object of the response. *)
Definition listed_from (response : Output) (f : FileItem) : Prop :=
  (FileItem.type f = folder ∧ FileItem.size f = 0 ∧
   ∃ l cp, CommonPrefixes response = Some l ∧ cp ∈ l ∧ Prefix cp = Some (FileItem.key f))
  ∨
  (FileItem.type f = file ∧
   ∃ l o, Contents response = Some l ∧ o ∈ l ∧ Key o = Some (FileItem.key f)).

(** The list contract of the store for a prefix: every key and every common
    prefix of the response begins with the prefix. *)
Definition within (prefix : string) (response : Output) : bool :=
  forallb (λ cp, match Prefix cp with
                 | Some p => Js.startsWith p prefix
                 | None => true
                 end) (default [] (CommonPrefixes response))
  && forallb (λ o, match Key o with
                   | Some k => Js.startsWith k prefix
                   | None => true
                   end) (default [] (Contents response)).

Definition is_folder (f : FileItem) : bool := bool_decide (FileItem.type f = folder).

(** The comparison by the sort key and the sort order alone *)
Definition compare_key (localeCompare : string → string → Z)
    (sortBy : SortBy) (sortOrder : SortOrder) (a b : FileItem) : Z :=
  let comparison :=
    match sortBy with
    | by_name => localeCompare (FileItem.name a) (FileItem.name b)
    | by_size => FileItem.size a - FileItem.size b
    | by_lastModified => FileItem.lastModified a - FileItem.lastModified b
    end in
  match sortOrder with
  | desc => - comparison
  | asc => comparison
  end.

(** The extension of a file name: [getFileNameAndExtension(name, true).extension] *)
Definition extension_of (fileName : string) : string :=
  (getFileNameAndExtension fileName true).2.

(** The key of a rename in the words of the specification: the last
    segment of [oldKey] between slashes, replaced by [newName]. *)
Definition replace_last_segment (oldKey newName : string) : string :=
  Js.join "/" (removelast (Js.split "/" oldKey) ++ [newName]).

(** ** Actions on several items *)

(** Each call of the list returns in the state that the one before it
    reached. *)
Fixpoint runs_in_turn {World} (calls : list (M World unit)) (s s' : State World) : Prop :=
  match calls with
  | [] => s' = s
  | call :: rest => ∃ s1, call s = (Return tt, s1) ∧ runs_in_turn rest s1 s'
  end.

(** The two actions on several items at once *)
Inductive Bulk :=
| Upload (path : string)
| Delete.

Definition item (action : Bulk) : Type :=
  match action with
  | Upload _ => File.t
  | Delete => FileItem
  end.

Section BulkActions.
Context {World : Type} (P : Platform World).
Variable toLowerCase : string → string.
Variable localeCompare : string → string → Z.
Variable creds : S3Credentials.
Variable currentPath : string.

Let this := new_S3Service creds.
Let bucket := bucketName creds.

(** The handler of the action *)
Definition bulk_handler (action : Bulk) : list (item action) → M World unit :=
  match action with
  | Upload path => λ files,
      handleUpload P toLowerCase localeCompare (Some creds) currentPath files path
  | Delete => λ filesToDelete,
      handleDelete P toLowerCase localeCompare (Some creds) currentPath filesToDelete
  end.

(** The call of the service for one item *)
Definition item_call (action : Bulk) : item action → M World unit :=
  match action with
  | Upload path => λ f, uploadFile P this f path
  | Delete => λ f, deleteFile P this (FileItem.key f)
  end.

(** The command of that call *)
Definition item_command (action : Bulk) : item action → Command :=
  match action with
  | Upload path => λ f,
      PutObjectCommand bucket
        (match path with EmptyString => File.name f | _ => path +:+ File.name f end)
        (BodyBytes (match File.arrayBuffer f with Return b => b | Throw _ => [] end))
        (Some (File.type f)) (Some (File.size f))
  | Delete => λ f, DeleteObjectCommand bucket (FileItem.key f)
  end.

(** What follows the loop of the handler *)
Definition after_loop (action : Bulk) : M World unit :=
  match action with
  | Upload _ => loadFiles P toLowerCase localeCompare (Some creds) currentPath
  | Delete =>
      loadFiles P toLowerCase localeCompare (Some creds) currentPath ;;
      modify_ui (setSelectedFiles []) ;;
      modify_ui (setSelectedFile None)
  end.

(** The loop of the handler *)
Definition bulk_loop (action : Bulk) (items : list (item action)) : M World unit :=
  for_of items (λ _ x, try_catch (item_call action x) (λ error, throw error)) tt.
End BulkActions.

(** ** A bucket to run the operations on *)

Module Demo.

Definition object (text : string) : MemS3.StoredObject :=
  {| MemS3.content := String.list_byte_of_string text;
     MemS3.contentType := None;
     MemS3.modified := 5 |}.

(** A bucket whose policy denies the delete of [readme] *)
Definition bucket : MemS3.t :=
  {| MemS3.bucket := "b";
     MemS3.objects :=
       list_to_map
         [ ("docs/", object ""); ("docs/a.txt", object "A");
           ("docs/B.PNG", object "png"); ("docs/sub/x.md", object "X");
           ("readme", object "R") ];
     MemS3.denied := [(MemS3.DeleteObject, "readme")];
     MemS3.clock := 100 |}.

Definition dashboard : Ui :=
  {| ui_files := []; ui_currentPath := ""; ui_selectedFile := None;
     ui_selectedFiles := []; ui_loading := false |}.

Definition state : State MemS3.t :=
  {| world := bucket; trace := []; ui := dashboard |}.

Definition credentials : S3Credentials :=
  {| accessKeyId := "AKIA"; secretAccessKey := "secret"; region := "us-east-1";
     bucketName := "b" |}.

Definition service : S3Service := new_S3Service credentials.

Definition sub : FileItem := FileItem.mk "docs/sub/" "sub" 0 100 folder None None.
Definition a_txt : FileItem :=
  FileItem.mk "docs/a.txt" "a.txt" 1 5 file (Some "text/plain") (Some "txt").
Definition B_PNG : FileItem :=
  FileItem.mk "docs/B.PNG" "B.PNG" 3 5 file (Some "image/png") (Some "png").
Definition readme : FileItem :=
  FileItem.mk "readme" "readme" 1 5 file (Some "application/octet-stream") (Some "readme").

(** The listing of [docs/] *)
Definition listing : list FileItem := [sub; B_PNG; a_txt].

Definition list_docs : M MemS3.t (list FileItem) :=
  listFiles MemS3.platform Host.toLowerCase Host.localeCompare service "docs/".

Definition delete_a : M MemS3.t unit :=
  deleteFile MemS3.platform service "docs/a.txt".

End Demo.

(** * More of the sources *)

(** ** src/components/FileBrowser.tsx: selection, icons, breadcrumbs *)

(** The icons of [lucide-react] that [getFileIcon] returns *)
Module Icon.
Inductive t := Folder | Image | Video | Music | FileText | Code | Archive | File.
End Icon.

Section FileBrowserMore.
Variable toLowerCase : string → string.

(** [file.extension?.toLowerCase() || ""] and [file.mimeType || ""], which
    the type filter and [getFileIcon] look at *)
Definition shown_extension (f : FileItem) : string :=
  default "" (Js.truthy (toLowerCase <$> FileItem.extension f)).

Definition shown_mimeType (f : FileItem) : string :=
  default "" (Js.truthy (FileItem.mimeType f)).

Definition getFileIcon (f : FileItem) : Icon.t :=
  if decide (FileItem.type f = folder) then Icon.Folder
  else
    let mimeType := default "" (Js.truthy (FileItem.mimeType f)) in
    let extension := default "" (Js.truthy (toLowerCase <$> FileItem.extension f)) in
    if Js.startsWith mimeType "image/" then Icon.Image
    else if Js.startsWith mimeType "video/" then Icon.Video
    else if Js.startsWith mimeType "audio/" then Icon.Music
    else if array_includes ["pdf"; "doc"; "docx"; "xls"; "xlsx"; "ppt"; "pptx"] extension
    then Icon.FileText
    else if array_includes ["js"; "ts"; "html"; "css"; "json"; "xml"; "txt"; "md"] extension
    then Icon.Code
    else if array_includes ["zip"; "rar"; "7z"; "tar"; "gz"] extension then Icon.Archive
    else Icon.File.

(** [handleMultiSelect(file, checked)]: the argument of [onMultiSelect] *)
Definition handleMultiSelect (selectedFiles : list FileItem) (f : FileItem) (checked : bool)
  : list FileItem :=
  if checked then selectedFiles ++ [f]
  else List.filter (λ g, negb (String.eqb (FileItem.key g) (FileItem.key f))) selectedFiles.

(** [currentPath.split("/").filter(Boolean)] *)
Definition pathSegments (currentPath : string) : list string :=
  List.filter (λ segment, negb (String.eqb segment "")) (Js.split "/" currentPath).

(** The path that the breadcrumb of index [index] navigates to:
    [pathSegments.slice(0, index + 1).join("/") + "/"] *)
Definition breadcrumb (currentPath : string) (index : nat) : string :=
  Js.join "/" (take (index + 1) (pathSegments currentPath)) +:+ "/".

End FileBrowserMore.

(** The path of a folder: its segments, each followed by a slash *)
Definition path_of (segments : list string) : string := Js.join "/" segments +:+ "/".

(** A segment that is not empty and holds no slash *)
Definition segment_ok (segment : string) : bool :=
  negb (String.eqb segment "") && negb (Js.includes segment "/").

(** ** The entries of a listing *)

(** What the listing tells of a file entry [f], for the object [o] of the
    response it was pushed for *)
Definition file_entry_of (toLowerCase : string → string) (prefix : string)
    (o : S3Object) (f : FileItem) : Prop :=
  FileItem.type f = file ∧
  Key o = Some (FileItem.key f) ∧
  FileItem.key f ≠ "" ∧ FileItem.key f ≠ prefix ∧ Js.endsWith (FileItem.key f) "/" = false ∧
  FileItem.name f = Js.slice (Js.length prefix) (FileItem.key f) ∧
  FileItem.size f = default 0 (Size o) ∧
  FileItem.extension f = toLowerCase <$> last (Js.split "." (FileItem.name f)) ∧
  (∀ m, getMimeType (default "" (Js.truthy (FileItem.extension f))) = MimeString m →
        FileItem.mimeType f = Some m) ∧
  (∀ d, LastModified o = Some d → FileItem.lastModified f = d).

(** What the listing tells of a folder entry [f], for the common prefix
    [cp] of the response it was pushed for *)
Definition folder_entry_of (prefix : string) (cp : CommonPrefix) (f : FileItem) : Prop :=
  FileItem.type f = folder ∧
  Prefix cp = Some (FileItem.key f) ∧
  FileItem.key f ≠ "" ∧
  FileItem.name f = Js.replace "/" "" (Js.slice (Js.length prefix) (FileItem.key f)) ∧
  FileItem.name f ≠ "" ∧
  FileItem.size f = 0 ∧ FileItem.mimeType f = None ∧ FileItem.extension f = None.

(** ** src/pages/Index.tsx: the other handlers *)

Section IndexMore.
Context {World : Type} (P : Platform World).
(** [JSZip]: the archive of the files added to it, in the order of the
    calls of [zip.file] *)
Variable zipBlob : list (string * bytes) → bytes.
Variable credentials : option S3Credentials.

Definition handleDownload (f : FileItem) : M World unit :=
  match credentials with
  | None => ret tt
  | Some creds =>
      let s3Service := new_S3Service creds in
      try_catch (downloadFile P s3Service (FileItem.key f) (FileItem.name f))
        (λ error, throw error)
  end.

Definition handleDownloadFolder (folder_ : FileItem) : M World unit :=
  match credentials with
  | None => ret tt
  | Some creds =>
      let s3Service := new_S3Service creds in
      try_catch
        (let! folderContents :=
           downloadFolderContents P s3Service (FileItem.key folder_) in
         if (List.length folderContents =? 0)%nat
         then throw (JsError "Folder is empty or contains no downloadable files")
         else emit (Saved (FileItem.name folder_ +:+ ".zip") (zipBlob folderContents)))
        (λ error, throw error)
  end.

End IndexMore.

(** ** src/components/FileBrowser.tsx: the download of the selection *)

(** A notification: the argument of [toast] *)
Module Toast.
Record t := mk {
  title : string;
  description : string;
  destructive : bool;
}.
End Toast.

Section DownloadSelected.
Context {World : Type}.
(** [Number.prototype.toString] of the host, in template strings *)
Variable toString : nat → string.
(** The properties [onDownload] and [onDownloadFolder] of the browser *)
Variable onDownload onDownloadFolder : FileItem → M World unit.

(** The body of the loop of [handleDownloadSelected]; [toasts] holds the
    notifications shown so far. *)
Definition download_one (toasts : list Toast.t) (f : FileItem) : M World (list Toast.t) :=
  try_catch
    (match FileItem.type f with
     | file => onDownload f
     | folder => onDownloadFolder f
     end ;;
     ret toasts)
    (λ error,
       ret (toasts ++
              [Toast.mk "Download Failed"
                 ("Failed to download " +:+ FileItem.name f +:+ ": " +:+ messageOf error)
                 true])).

(** [handleDownloadSelected()]: the notifications it shows, in order *)
Definition handleDownloadSelected (selectedFiles : list FileItem) : M World (list Toast.t) :=
  let! toasts := for_of selectedFiles download_one [] in
  let fileCount :=
    List.length (List.filter (λ f, bool_decide (FileItem.type f = file)) selectedFiles) in
  let folderCount :=
    List.length (List.filter (λ f, bool_decide (FileItem.type f = folder)) selectedFiles) in
  if (0 <? fileCount)%nat || (0 <? folderCount)%nat
  then ret (toasts ++
              [Toast.mk "Downloads Started"
                 ("Started downloading " +:+ toString fileCount +:+ " file(s) and "
                  +:+ toString folderCount +:+ " folder(s)")
                 false])
  else ret toasts.

End DownloadSelected.

(** ** src/components/FilePreview.tsx *)

(** What [renderPreview] shows *)
Inductive PreviewView :=
| Spinner
| NotAvailable
| ImageView (src : string)
| VideoView (src : string)
| AudioView (src : string)
| PdfFrame (src : string)
| TextFrame (src : string)
| NotSupported.

Section FilePreview.
Context {World : Type} (P : Platform World).

(** The test of [loadPreview] for the MIME types it fetches a URL for *)
Definition previewable (mimeType : string) : bool :=
  Js.startsWith mimeType "image/" || Js.startsWith mimeType "video/"
  || Js.startsWith mimeType "audio/" || String.eqb mimeType "application/pdf"
  || Js.startsWith mimeType "text/".

(** [loadPreview()], run when the file or the credentials change: the value
    of [previewUrl] afterwards, from its value [previewUrl] before. The
    component keeps its state from one file to the next. *)
Definition loadPreview (credentials : option S3Credentials) (f : FileItem)
    (previewUrl : string) : M World string :=
  match credentials with
  | None => ret previewUrl
  | Some creds =>
      if decide (FileItem.type f = folder) then ret previewUrl
      else
        let mimeType := default "" (Js.truthy (FileItem.mimeType f)) in
        if previewable mimeType then
          try_catch
            (let s3Service := new_S3Service creds in
             getFileUrl P s3Service (FileItem.key f))
            (λ _, ret previewUrl)
        else ret previewUrl
  end.

(** [renderPreview()] *)
Definition renderPreview (loading : bool) (previewUrl : string) (f : FileItem)
  : PreviewView :=
  if loading then Spinner
  else match Js.truthy (Some previewUrl) with
       | None => NotAvailable
       | Some _ =>
           let mimeType := default "" (Js.truthy (FileItem.mimeType f)) in
           if Js.startsWith mimeType "image/" then ImageView previewUrl
           else if Js.startsWith mimeType "video/" then VideoView previewUrl
           else if Js.startsWith mimeType "audio/" then AudioView previewUrl
           else if String.eqb mimeType "application/pdf" then PdfFrame previewUrl
           else if Js.startsWith mimeType "text/"
                   || array_includes ["application/json"; "application/xml"] mimeType
           then TextFrame previewUrl
           else NotSupported
       end.

End FilePreview.

(** The keys of the objects that [downloadFolderContents] fetches: those
    that are not empty and do not end with a slash *)
Definition downloadable_keys (contents : list S3Object) : list string :=
  omap (λ o, match Js.truthy (Key o) with
             | Some k => if Js.endsWith k "/" then None else Some k
             | None => None
             end) contents.

(** The command of an event that is a call of the client *)
Definition sent_command (ev : Event) : option Command :=
  match ev with
  | Sent command _ => Some command
  | _ => None
  end.

(** ** The connection: src/pages/Index.tsx and src/components/S3ConnectionForm.tsx *)

(** The state of the page that a connection sets, and the item
    [s3-credentials] of [localStorage] *)
Module Session.
Record t := mk {
  isConnected : bool;
  credentials : option S3Credentials;
  stored : option string;
}.
End Session.

(** The platform next to a session that its calls do not touch *)
Definition with_session {World} (P : Platform World) : Platform (World * Session.t) :=
  {| send := λ cfg command w, let '(r, w') := send P cfg command w.1 in (r, (w', w.2));
     getSignedUrl := λ cfg command expiresIn w,
       let '(r, w') := getSignedUrl P cfg command expiresIn w.1 in (r, (w', w.2));
     newDate := λ w, let '(d, w') := newDate P w.1 in (d, (w', w.2)) |}.

Definition session {World} (s : State (World * Session.t)) : Session.t := (world s).2.

Definition modify_session {World} (f : Session.t → Session.t) : M (World * Session.t) unit :=
  λ s, (Return tt, {| world := ((world s).1, f (world s).2); trace := trace s; ui := ui s |}).

Definition setIsConnected (b : bool) (x : Session.t) : Session.t :=
  Session.mk b (Session.credentials x) (Session.stored x).

Definition setCredentials (c : option S3Credentials) (x : Session.t) : Session.t :=
  Session.mk (Session.isConnected x) c (Session.stored x).


Section Connection.
Context {World : Type} (P : Platform World).
Variable toLowerCase : string → string.
Variable localeCompare : string → string → Z.

Definition handleConnect (creds : S3Credentials) : M (World * Session.t) unit :=
  modify_ui (setLoading true) ;;
  try_finally
    (try_catch
       (let s3Service := new_S3Service creds in
        testConnection (with_session P) s3Service ;;
        modify_session (setCredentials (Some creds)) ;;
        modify_session (setIsConnected true) ;;
        let! fileList := listFiles (with_session P) toLowerCase localeCompare s3Service "" in
        modify_ui (setFiles fileList) ;;
        modify_ui (setCurrentPath ""))
       (λ error, throw error))
    (on_state (setLoading false)).

End Connection.

(** The state of the form after a submit: the value of [error] and the toast
    that was shown *)
Module Submitted.
Record t := mk {
  error : string;
  toast : option Toast.t;
}.
End Submitted.

Section ConnectionForm.
Context {World : Type}.
(** [JSON.stringify] on credentials *)
Variable stringify : S3Credentials → string.
(** Whether [localStorage.setItem] throws for a value, and what: the storage
    of the host may be full or disabled. *)
Variable setItem_throws : string → State (World * Session.t) → option Thrown.
(** The property [onConnect] of the form *)
Variable onConnect : S3Credentials → M (World * Session.t) unit.



End ConnectionForm.

(** ** More of the bucket *)

Module Tour.

Definition main_py : FileItem :=
  FileItem.mk "src/main.py" "main.py" 10 5 file (Some "application/octet-stream") (Some "py").
Definition data_json : FileItem :=
  FileItem.mk "data.json" "data.json" 2 5 file (Some "application/json") (Some "json").
Definition docs : FileItem := FileItem.mk "docs/" "docs" 0 100 folder None None.
Definition empty : FileItem := FileItem.mk "empty/" "empty" 0 100 folder None None.

(** A bucket with a folder that holds its marker and nothing else *)
Definition bucket : MemS3.t :=
  {| MemS3.bucket := "b";
     MemS3.objects := list_to_map [("empty/", Demo.object ""); ("readme", Demo.object "R")];
     MemS3.denied := [];
     MemS3.clock := 100 |}.

Definition state : State MemS3.t :=
  {| world := bucket; trace := []; ui := Demo.dashboard |}.

(** An archive that holds the contents one after the other *)
Definition zipBlob (entries : list (string * bytes)) : bytes := mjoin (entries.*2).

Definition list_root : M MemS3.t (list FileItem) :=
  listFiles MemS3.platform Host.toLowerCase Host.localeCompare Demo.service "".

Definition download_docs : M MemS3.t (list (string * bytes)) :=
  downloadFolderContents MemS3.platform Demo.service "docs/".

(** A bucket with a key that reads as the URL encoding of another key *)
Definition escaped : MemS3.t :=
  {| MemS3.bucket := "b";
     MemS3.objects := list_to_map [("%41.txt", Demo.object "X"); ("A.txt", Demo.object "A")];
     MemS3.denied := [];
     MemS3.clock := 100 |}.

Definition escaped_state : State MemS3.t :=
  {| world := escaped; trace := []; ui := Demo.dashboard |}.

Definition rename_escaped : M MemS3.t unit :=
  renameFile MemS3.platform Demo.service "%41.txt" "new.txt".

End Tour.

(** * Properties *)

(** ** The sort *)

Section SortFacts.
Context {A : Type}.
Implicit Types (compare : A → A → Z) (l : list A).

Lemma insert_sorted_perm compare x l : insert_sorted compare x l ≡ₚ x :: l.
Proof.
  induction l as [|y l IH]; simpl; [done|].
  destruct (compare x y <=? 0); [done|].
  by rewrite IH, Permutation_swap.
Qed.

Lemma sort_perm compare l : sort compare l ≡ₚ l.
Proof.
  induction l as [|x l IH]; simpl; [done|].
  by rewrite insert_sorted_perm, IH.
Qed.

Lemma elem_of_sort compare l x : x ∈ sort compare l ↔ x ∈ l.
Proof. by rewrite sort_perm. Qed.

(** Two comparison functions that agree on the elements of a list sort it
    alike. *)
Lemma insert_sorted_ext compare1 compare2 x l :
  (∀ y, y ∈ l → compare1 x y = compare2 x y) →
  insert_sorted compare1 x l = insert_sorted compare2 x l.
Proof.
  induction l as [|y l IH]; intros H; simpl; [done|].
  rewrite (H y) by left.
  destruct (compare2 x y <=? 0); [done|].
  f_equal. apply IH. intros z Hz. apply H. by right.
Qed.

Lemma sort_ext compare1 compare2 l :
  (∀ x y, x ∈ l → y ∈ l → compare1 x y = compare2 x y) →
  sort compare1 l = sort compare2 l.
Proof.
  induction l as [|x l IH]; intros H; simpl; [done|].
  rewrite IH by (intros; apply H; by right).
  apply insert_sorted_ext. intros y Hy. apply H; [by left|].
  right. by apply elem_of_sort in Hy.
Qed.

(** A comparison function that puts the elements of one group before all
    others sorts the two groups apart. *)
Section Groups.
Variable compare : A → A → Z.
Variable first : A → bool.
Hypothesis first_before : ∀ x y, first x = true → first y = false → compare x y <= 0.
Hypothesis other_after : ∀ x y, first x = false → first y = true → 0 < compare x y.

Lemma insert_sorted_first x l1 l2 :
  first x = true → Forall (λ y, first y = false) l2 →
  insert_sorted compare x (l1 ++ l2) = insert_sorted compare x l1 ++ l2.
Proof.
  intros Hx H2. induction l1 as [|y l1 IH]; simpl.
  - destruct H2 as [|y l2 Hy H2]; simpl; [done|].
    pose proof (first_before x y Hx Hy).
    by destruct (Z.leb_spec (compare x y) 0); [|lia].
  - destruct (compare x y <=? 0); [done|]. by rewrite IH.
Qed.

Lemma insert_sorted_other x l1 l2 :
  first x = false → Forall (λ y, first y = true) l1 →
  insert_sorted compare x (l1 ++ l2) = l1 ++ insert_sorted compare x l2.
Proof.
  intros Hx H1. induction H1 as [|y l1 Hy H1 IH]; simpl; [done|].
  pose proof (other_after x y Hx Hy).
  destruct (Z.leb_spec (compare x y) 0); [lia|]. by rewrite IH.
Qed.

Lemma sort_groups l :
  sort compare l =
    sort compare (List.filter first l)
    ++ sort compare (List.filter (λ x, negb (first x)) l).
Proof.
  induction l as [|x l IH]; simpl; [done|].
  rewrite IH. destruct (first x) eqn:Hx; simpl.
  - apply insert_sorted_first; [done|].
    apply Forall_forall. intros y Hy.
    apply elem_of_sort, list_elem_of_In, filter_In in Hy as [_ Hy].
    by apply negb_true_iff.
  - apply insert_sorted_other; [done|].
    apply Forall_forall. intros y Hy.
    by apply elem_of_sort, list_elem_of_In, filter_In in Hy as [_ Hy].
Qed.
End Groups.

(** A total and transitive comparison function: the result is sorted. *)
Section Sorted.
Variable compare : A → A → Z.
Hypothesis total : ∀ x y, 0 < compare x y → compare y x <= 0.
Hypothesis transitive : ∀ x y z, compare x y <= 0 → compare y z <= 0 → compare x z <= 0.

Lemma insert_sorted_StronglySorted x l :
  StronglySorted (λ a b, compare a b <= 0) l →
  StronglySorted (λ a b, compare a b <= 0) (insert_sorted compare x l).
Proof.
  induction 1 as [|y l Hl IH Hy]; simpl.
  - repeat constructor.
  - destruct (Z.leb_spec (compare x y) 0) as [Hxy|Hxy].
    + constructor; [by constructor|].
      constructor; [done|].
      eapply Forall_impl; [exact Hy|]. intros z Hz. by eapply transitive.
    + constructor; [done|].
      rewrite insert_sorted_perm. constructor; [by apply total|done].
Qed.

Lemma sort_StronglySorted l :
  StronglySorted (λ a b, compare a b <= 0) (sort compare l).
Proof.
  induction l; simpl; [constructor|by apply insert_sorted_StronglySorted].
Qed.
End Sorted.
End SortFacts.

(** ** What a computation adds to the trace *)

Section Emits.
Context {World : Type} (P : Platform World).
Variable this : S3Service.

Lemma emits_weaken {A} (m : M World A) (Q Q' : list Event → Outcome A → Prop) :
  emits m Q → (∀ evs r, Q evs r → Q' evs r) → emits m Q'.
Proof. intros Hm HQ s. destruct (Hm s) as (evs & ? & ?). eauto. Qed.

Lemma emits_ret {A} (a : A) : emits (World:=World) (ret a) (λ evs r, evs = [] ∧ r = Return a).
Proof. intros s. exists []. simpl. by rewrite app_nil_r. Qed.

Lemma emits_throw {A} e :
  emits (World:=World) (A:=A) (throw e) (λ evs r, evs = [] ∧ r = Throw e).
Proof. intros s. exists []. simpl. by rewrite app_nil_r. Qed.

Lemma emits_settle {A} (o : Outcome A) :
  emits (World:=World) (settle o) (λ evs r, evs = [] ∧ r = o).
Proof. intros s. exists []. simpl. by rewrite app_nil_r. Qed.

Lemma emits_emit ev :
  emits (World:=World) (emit ev) (λ evs r, evs = [ev] ∧ r = Return tt).
Proof. intros s. by exists [ev]. Qed.

Lemma emits_modify_ui f :
  emits (World:=World) (modify_ui f) (λ evs r, evs = [] ∧ r = Return tt).
Proof. intros s. exists []. simpl. by rewrite app_nil_r. Qed.

Lemma emits_new_Date :
  emits (new_Date P) (λ evs r, evs = [] ∧ ∃ d, r = Return d).
Proof.
  intros s. exists []. unfold new_Date. destruct (newDate P (world s)) as [d w].
  simpl. rewrite app_nil_r. eauto.
Qed.

Lemma emits_client_send command :
  emits (client_send P this command)
    (λ evs r, evs = [Sent command (failure_of r)]).
Proof.
  intros s. unfold client_send.
  destruct (send P (s3Client this) command (world s)) as [[o|e] w]; simpl; eauto.
Qed.

Lemma emits_client_getSignedUrl command expiresIn :
  emits (client_getSignedUrl P this command expiresIn)
    (λ evs r, evs = [Presigned command expiresIn (failure_of r)]).
Proof.
  intros s. unfold client_getSignedUrl.
  destruct (getSignedUrl P (s3Client this) command expiresIn (world s)) as [[o|e] w];
    simpl; eauto.
Qed.

Lemma emits_bind {A B} (m : M World A) (k : A → M World B) Q1 Q2
    (Q : list Event → Outcome B → Prop) :
  emits m Q1 → (∀ a, emits (k a) (Q2 a)) →
  (∀ evs e, Q1 evs (Throw e) → Q evs (Throw e)) →
  (∀ evs1 a evs2 r, Q1 evs1 (Return a) → Q2 a evs2 r → Q (evs1 ++ evs2) r) →
  emits (bind m k) Q.
Proof.
  intros Hm Hk Hthrow Hseq s. unfold bind.
  destruct (Hm s) as (evs1 & Ht1 & H1).
  destruct (m s) as [[a|e] s1]; simpl in *.
  - destruct (Hk a s1) as (evs2 & Ht2 & H2).
    exists (evs1 ++ evs2). rewrite Ht2, Ht1, app_assoc. eauto.
  - eauto.
Qed.

Lemma emits_try_catch {A} (m : M World A) (h : Thrown → M World A) Q1 Q2
    (Q : list Event → Outcome A → Prop) :
  emits m Q1 → (∀ e, emits (h e) (Q2 e)) →
  (∀ evs a, Q1 evs (Return a) → Q evs (Return a)) →
  (∀ evs1 e evs2 r, Q1 evs1 (Throw e) → Q2 e evs2 r → Q (evs1 ++ evs2) r) →
  emits (try_catch m h) Q.
Proof.
  intros Hm Hh Hret Hseq s. unfold try_catch.
  destruct (Hm s) as (evs1 & Ht1 & H1).
  destruct (m s) as [[a|e] s1]; simpl in *.
  - eauto.
  - destruct (Hh e s1) as (evs2 & Ht2 & H2).
    exists (evs1 ++ evs2). rewrite Ht2, Ht1, app_assoc. eauto.
Qed.

Lemma emits_try_finally {A} (m : M World A) f Q :
  (∀ s, trace (f s) = trace s) → emits m Q → emits (try_finally m f) Q.
Proof.
  intros Hf Hm s. unfold try_finally.
  destruct (Hm s) as (evs & Ht & H). destruct (m s) as [r s1]; simpl in *.
  rewrite Hf. eauto.
Qed.

(** A loop: [Q] holds of every turn, of no turn, and of one turn after
    another. *)
Lemma emits_for_of {A B} (l : list A) (body : B → A → M World B)
    (Q : list Event → Outcome B → Prop) :
  (∀ acc x, x ∈ l → emits (body acc x) Q) →
  (∀ acc, Q [] (Return acc)) →
  (∀ evs1 acc evs2 r, Q evs1 (Return acc) → Q evs2 r → Q (evs1 ++ evs2) r) →
  ∀ acc, emits (for_of l body acc) Q.
Proof.
  intros Hbody Hnil Hseq. induction l as [|x l IH]; intros acc; simpl.
  - eapply emits_weaken; [apply emits_ret|]. intros evs r [-> ->]. apply Hnil.
  - eapply emits_bind with (Q1 := Q) (Q2 := λ _, Q).
    + apply Hbody. by left.
    + apply IH. intros acc' y Hy. apply Hbody. by right.
    + done.
    + intros evs1 a evs2 r. apply Hseq.
Qed.

End Emits.

(** ** Strings *)

Section StringFacts.
Implicit Types s t p : string.

Lemma app_String c s t : String c s +:+ t = String c (s +:+ t).
Proof. reflexivity. Qed.

Lemma app_empty_l t : "" +:+ t = t.
Proof. reflexivity. Qed.

Lemma app_empty_r s : s +:+ "" = s.
Proof. induction s as [|c s IH]; [done|]. by rewrite app_String, IH. Qed.

Lemma app_assoc_string s t p : (s +:+ t) +:+ p = s +:+ (t +:+ p).
Proof. induction s as [|c s IH]; [done|]. by rewrite !app_String, IH. Qed.

Lemma length_app_string s t : Js.length (s +:+ t) = (Js.length s + Js.length t)%nat.
Proof.
  unfold Js.length. induction s as [|c s IH]; [done|].
  rewrite app_String. simpl. by rewrite IH.
Qed.

Lemma startsWith_app_same s t p : Js.startsWith (s +:+ t) (s +:+ p) = Js.startsWith t p.
Proof.
  induction s as [|c s IH]; [done|].
  rewrite !app_String. simpl. by rewrite Ascii.eqb_refl.
Qed.

Lemma startsWith_app s t : Js.startsWith (s +:+ t) s = true.
Proof.
  rewrite <- (app_empty_r s) at 2. rewrite startsWith_app_same. by destruct t.
Qed.

Lemma slice_app s t : Js.slice (Js.length s) (s +:+ t) = t.
Proof. induction s as [|c s IH]; [done|]. by rewrite app_String. Qed.

End StringFacts.

(** ** Events that satisfy a predicate, whatever the outcome *)

Section Each.
Context {World : Type} (P : Platform World).
Variable this : S3Service.
Variable φ : Event → Prop.

Lemma each_silent {A} (m : M World A) (Q : Outcome A → Prop) :
  emits m (λ evs r, evs = [] ∧ Q r) → emits m (each φ).
Proof. intros H. eapply emits_weaken; [exact H|]. intros evs r [-> _]. constructor. Qed.

Lemma each_ret {A} (a : A) : emits (World:=World) (ret a) (each φ).
Proof. eapply each_silent, emits_ret. Qed.

Lemma each_settle {A} (o : Outcome A) : emits (World:=World) (settle o) (each φ).
Proof. eapply each_silent, emits_settle. Qed.

Lemma each_new_Date : emits (new_Date P) (each φ).
Proof. eapply each_silent, emits_new_Date. Qed.

Lemma each_rethrow {A} prefix e : emits (World:=World) (A:=A) (rethrow prefix e) (each φ).
Proof. eapply each_silent, emits_throw. Qed.

Lemma each_client_send command :
  (∀ f, φ (Sent command f)) → emits (client_send P this command) (each φ).
Proof.
  intros H. eapply emits_weaken; [apply emits_client_send|].
  intros evs r ->. by repeat constructor.
Qed.

Lemma each_client_getSignedUrl command expiresIn :
  (∀ f, φ (Presigned command expiresIn f)) →
  emits (client_getSignedUrl P this command expiresIn) (each φ).
Proof.
  intros H. eapply emits_weaken; [apply emits_client_getSignedUrl|].
  intros evs r ->. by repeat constructor.
Qed.

Lemma each_emit ev : φ ev → emits (World:=World) (emit ev) (each φ).
Proof.
  intros H. eapply emits_weaken; [apply emits_emit|].
  intros evs r [-> _]. by repeat constructor.
Qed.

Lemma each_bind {A B} (m : M World A) (k : A → M World B) :
  emits m (each φ) → (∀ a, emits (k a) (each φ)) → emits (bind m k) (each φ).
Proof.
  intros Hm Hk. eapply emits_bind; [exact Hm|exact Hk|done|].
  intros evs1 a evs2 r H1 H2. by apply Forall_app.
Qed.

Lemma each_try_catch {A} (m : M World A) h :
  emits m (each φ) → (∀ e, emits (h e) (each φ)) → emits (try_catch m h) (each φ).
Proof.
  intros Hm Hh. eapply emits_try_catch; [exact Hm|exact Hh|done|].
  intros evs1 a evs2 r H1 H2. by apply Forall_app.
Qed.

Lemma each_for_of {A B} (l : list A) (body : B → A → M World B) acc :
  (∀ acc x, emits (body acc x) (each φ)) → emits (for_of l body acc) (each φ).
Proof.
  intros H. apply emits_for_of; [auto|constructor|].
  intros evs1 a evs2 r H1 H2. by apply Forall_app.
Qed.

End Each.

(** ** One bucket *)

Section OneBucket.
Context {World : Type} (P : Platform World).
Variable toLowerCase : string → string.
Variable localeCompare : string → string → Z.
Variable this : S3Service.

Local Ltac step :=
  first
    [ apply each_try_catch; [|intros ?; apply each_rethrow]
    | apply each_bind; [|intros ?]
    | apply each_for_of; intros ? ?
    | apply each_client_send; intros ?; simpl; try done
    | apply each_client_getSignedUrl; intros ?; simpl; done
    | apply each_emit; done
    | apply each_ret | apply each_settle | apply each_new_Date
    | match goal with
      | |- emits (match ?x with _ => _ end) _ => destruct x
      | |- emits (if ?x then _ else _) _ => destruct x
      end ].

Lemma perform_targets op :
  emits (perform P toLowerCase localeCompare this op)
    (each (targets (this_bucketName this))).
Proof.
  destruct op; simpl;
    unfold void, testConnection, listFiles, uploadFile, deleteFile, renameFile,
      createFolder, downloadFile, generatePresignedUrl, getFileUrl,
      downloadFolderContents, push_folder, push_file, push_content;
    repeat step.
  split; [done|]. rewrite startsWith_app_same. reflexivity.
Qed.
End OneBucket.

(** C8. Every command that a service object sends, and every URL it has
    presigned, names the bucket of the credentials the object was built
    from: whatever the operation and the state it starts in, the events it
    adds to the trace all target [bucketName credentials]. *)
Theorem service_targets_one_bucket {World} (P : Platform World)
    (toLowerCase : string → string) (localeCompare : string → string → Z)
    (credentials : S3Credentials) (op : Operation) (s : State World) :
  ∃ evs,
    trace (perform P toLowerCase localeCompare (new_S3Service credentials) op s).2
      = trace s ++ evs
    ∧ Forall (targets (bucketName credentials)) evs.
Proof.
  apply (perform_targets P toLowerCase localeCompare (new_S3Service credentials) op s).
Qed.

(** ** Failures of the client *)

Section Guarded.
Context {World : Type} (P : Platform World).
Variable this : S3Service.
Implicit Type R : Event → Thrown → Thrown → Prop.

Lemma guarded_silent {A} R (m : M World A) (Q : Outcome A → Prop) :
  emits m (λ evs r, evs = [] ∧ Q r) → emits m (guarded R).
Proof.
  intros H. eapply emits_weaken; [exact H|]. intros evs r [-> _]. left. constructor.
Qed.

Lemma guarded_ret {A} R (a : A) : emits (World:=World) (ret a) (guarded R).
Proof. eapply guarded_silent, emits_ret. Qed.

Lemma guarded_settle {A} R (o : Outcome A) : emits (World:=World) (settle o) (guarded R).
Proof. eapply guarded_silent, emits_settle. Qed.

Lemma guarded_new_Date R : emits (new_Date P) (guarded R).
Proof. eapply guarded_silent, emits_new_Date. Qed.

Lemma guarded_emit_Saved R fileName blob :
  emits (World:=World) (emit (Saved fileName blob)) (guarded R).
Proof.
  eapply emits_weaken; [apply emits_emit|].
  intros evs r [-> _]. left. by repeat constructor.
Qed.

Lemma guarded_client_send R command :
  (∀ e0, R (Sent command (Some e0)) e0 e0) →
  emits (client_send P this command) (guarded R).
Proof.
  intros H. eapply emits_weaken; [apply emits_client_send|].
  intros evs [o|e] ->; simpl.
  - left. by repeat constructor.
  - right. exists [], (Sent command (Some e)), e, e. repeat split; auto. constructor.
Qed.

Lemma guarded_client_getSignedUrl R command expiresIn :
  (∀ e0, R (Presigned command expiresIn (Some e0)) e0 e0) →
  emits (client_getSignedUrl P this command expiresIn) (guarded R).
Proof.
  intros H. eapply emits_weaken; [apply emits_client_getSignedUrl|].
  intros evs [o|e] ->; simpl.
  - left. by repeat constructor.
  - right. exists [], (Presigned command expiresIn (Some e)), e, e.
    repeat split; auto. constructor.
Qed.

(** After a computation that returned, every call it made has returned. *)
Lemma guarded_Return {A} R evs (a : A) : guarded R evs (Return a) → quiet evs.
Proof. intros [H|(pre & ev & e0 & e & _ & _ & _ & [=] & _)]; done. Qed.

Lemma guarded_app {A B} R evs1 (a : A) evs2 (r : Outcome B) :
  guarded R evs1 (Return a) → guarded R evs2 r → guarded R (evs1 ++ evs2) r.
Proof.
  intros H1%guarded_Return [H2|(pre & ev & e0 & e & -> & Hpre & Hev & -> & HR)].
  - left. by apply Forall_app.
  - right. exists (evs1 ++ pre), ev, e0, e. rewrite app_assoc.
    repeat split; auto. by apply Forall_app.
Qed.

Lemma guarded_bind {A B} R (m : M World A) (k : A → M World B) :
  emits m (guarded R) → (∀ a, emits (k a) (guarded R)) → emits (bind m k) (guarded R).
Proof.
  intros Hm Hk. eapply emits_bind; [exact Hm|exact Hk|..].
  - intros evs e [H|(pre & ev & e0 & e' & -> & Hpre & Hev & [= <-] & HR)].
    + by left.
    + right. by exists pre, ev, e0, e.
  - intros evs1 a evs2 r. apply guarded_app.
Qed.

Lemma guarded_for_of {A B} R (l : list A) (body : B → A → M World B) acc :
  (∀ acc x, emits (body acc x) (guarded R)) → emits (for_of l body acc) (guarded R).
Proof.
  intros H. apply emits_for_of; [auto|left; constructor|].
  intros evs1 a evs2 r. apply guarded_app.
Qed.

(** [try { m } catch (error) { throw new Error(prefix + message) }] *)
Lemma guarded_rethrow {A} R R' (m : M World A) prefix :
  emits m (guarded R) →
  (∀ ev e0 e, R ev e0 e → R' ev e0 (JsError (prefix +:+ messageOf e))) →
  emits (try_catch m (rethrow prefix)) (guarded R').
Proof.
  intros Hm HR.
  eapply emits_try_catch with
    (Q2 := λ e evs r, evs = [] ∧ r = Throw (JsError (prefix +:+ messageOf e)));
    [exact Hm|intros e; apply emits_throw|..].
  - intros evs a H%guarded_Return. by left.
  - intros evs1 e evs2 r H1 [-> ->]. rewrite app_nil_r.
    destruct H1 as [H|(pre & ev & e0 & e' & -> & Hpre & Hev & [= <-] & H)].
    + by left.
    + right. exists pre, ev, e0. eexists. repeat split; eauto.
Qed.

End Guarded.

Section Failures.
Context {World : Type} (P : Platform World).
Variable toLowerCase : string → string.
Variable localeCompare : string → string → Z.
Variable this : S3Service.

Local Ltac step :=
  first
    [ apply guarded_bind; [|intros ?]
    | apply guarded_for_of; intros ? ?
    | apply guarded_client_send; intros ?; reflexivity
    | apply guarded_client_getSignedUrl; intros ?; reflexivity
    | apply guarded_emit_Saved
    | apply guarded_ret | apply guarded_settle | apply guarded_new_Date
    | match goal with
      | |- emits (match ?x with _ => _ end) _ => destruct x
      | |- emits (if ?x then _ else _) _ => destruct x
      end ].

Local Ltac wrapped :=
  eapply guarded_rethrow with (R := λ _ e0 e, e = e0);
    [repeat step|by intros ev e0 e ->].

Lemma void_guarded {A} R (m : M World A) : emits m (guarded R) → emits (void m) (guarded R).
Proof. intros H. apply guarded_bind; [done|]. intros a. apply guarded_ret. Qed.

Lemma perform_guarded op :
  emits (perform P toLowerCase localeCompare this op)
    (guarded (λ ev e0 e, e = JsError (reported_prefix op ev +:+ messageOf e0))).
Proof.
  destruct op; simpl; try apply void_guarded;
    unfold testConnection, listFiles, uploadFile, deleteFile, renameFile,
      createFolder, downloadFile, generatePresignedUrl, getFileUrl,
      downloadFolderContents, push_folder, push_file, push_content;
    try wrapped.
  (* the rename: a copy, then [deleteFile] with its own wrapper *)
  eapply guarded_rethrow with
    (R := λ ev e0 e,
       match ev with
       | Sent (DeleteObjectCommand _ _) _ => e = JsError ("Delete failed: " +:+ messageOf e0)
       | _ => e = e0
       end).
  - apply guarded_bind; [apply guarded_client_send; by intros ?|intros _].
    eapply guarded_rethrow with
      (R := λ ev e0 e, (∃ b k f, ev = Sent (DeleteObjectCommand b k) f) ∧ e = e0).
    + apply guarded_bind; [|intros ?; apply guarded_ret].
      apply guarded_client_send. intros e0. eauto.
    + by intros ev e0 e [(b & k & f & ->) ->].
  - intros ev e0 e H. unfold reported_prefix.
    destruct ev as [[] ?| |]; subst; reflexivity.
Qed.
End Failures.

(** C4, as amended. Whatever the operation of the service and the state it
    starts in, either none of the calls it issues fails, or exactly one
    does: it is the last event of the operation, nothing is issued after it
    (no retry), and the operation throws an [Error] whose message is the
    prefix of the operation followed by the message of the value the call
    threw (["Unknown error"] when that is not an [Error]); when the call
    that failed is the delete of a rename, ["Delete failed: "] stands
    between the two. *)
Theorem service_failure_is_wrapped_once {World} (P : Platform World)
    (toLowerCase : string → string) (localeCompare : string → string → Z)
    (this : S3Service) (op : Operation) (s : State World) :
  ∃ evs,
    trace (perform P toLowerCase localeCompare this op s).2 = trace s ++ evs ∧
    (quiet evs ∨
     ∃ pre ev e0,
       evs = pre ++ [ev] ∧ quiet pre ∧ failure ev = Some e0 ∧
       (perform P toLowerCase localeCompare this op s).1
         = Throw (JsError (reported_prefix op ev +:+ messageOf e0))).
Proof.
  destruct (perform_guarded P toLowerCase localeCompare this op s)
    as (evs & Ht & [H|(pre & ev & e0 & e & -> & Hpre & Hev & Hr & ->)]).
  - exists evs. auto.
  - exists (pre ++ [ev]). split; [done|]. right. by exists pre, ev, e0.
Qed.

(** ** Runs that return *)

Section Runs.
Context {World : Type} (P : Platform World).
Variable this : S3Service.

Lemma bind_Return {A B} (m : M World A) (k : A → M World B) s b s' :
  bind m k s = (Return b, s') →
  ∃ a s1, m s = (Return a, s1) ∧ k a s1 = (Return b, s').
Proof. unfold bind. destruct (m s) as [[a|e] s1]; [eauto|done]. Qed.

Lemma bind_Throw {A B} (m : M World A) (k : A → M World B) s e s' :
  m s = (Throw e, s') → bind m k s = (Throw e, s').
Proof. unfold bind. by intros ->. Qed.

Lemma bind_step {A B} (m : M World A) (k : A → M World B) s a s1 :
  m s = (Return a, s1) → bind m k s = k a s1.
Proof. unfold bind. by intros ->. Qed.

Lemma rethrow_Return {A} (m : M World A) prefix s a s' :
  try_catch m (rethrow prefix) s = (Return a, s') → m s = (Return a, s').
Proof. unfold try_catch, rethrow, throw. by destruct (m s) as [[a'|e] s1]. Qed.

Lemma client_send_Return command s o s' :
  client_send P this command s = (Return o, s') →
  ∃ w, send P (s3Client this) command (world s) = (Return o, w) ∧
       s' = {| world := w; trace := trace s ++ [Sent command None]; ui := ui s |}.
Proof.
  unfold client_send.
  destruct (send P (s3Client this) command (world s)) as [[o'|e] w]; [|done].
  intros [= <- <-]. eauto.
Qed.

Lemma for_of_Return_inv {A B} (I : B → Prop) (l : list A) (body : B → A → M World B) :
  (∀ acc x s acc' s', x ∈ l → I acc → body acc x s = (Return acc', s') → I acc') →
  ∀ acc s acc' s', I acc → for_of l body acc s = (Return acc', s') → I acc'.
Proof.
  induction l as [|x l IH]; intros Hbody acc s acc' s' Hacc; simpl.
  - by intros [= <- _].
  - intros (acc1 & s1 & H1 & H2)%bind_Return.
    eapply IH; [|eapply Hbody; [by left|exact Hacc|exact H1]|exact H2].
    intros. eapply Hbody; [by right|done..].
Qed.
End Runs.

(** ** The listing *)

Section Listing.
Context {World : Type} (P : Platform World).
Variable toLowerCase : string → string.
Variable localeCompare : string → string → Z.
Variable this : S3Service.

Lemma truthy_Some o s : Js.truthy o = Some s → o = Some s.
Proof. by destruct o as [[]|]. Qed.

Lemma new_Date_Return s : ∃ d s', new_Date P s = (Return d, s').
Proof. unfold new_Date. destruct (newDate P (world s)). eauto. Qed.

Lemma push_folder_Return prefix files cp s files' s' :
  push_folder P prefix files cp s = (Return files', s') →
  files' = files ∨
  ∃ f, files' = files ++ [f] ∧ FileItem.type f = folder ∧ FileItem.size f = 0 ∧
       Prefix cp = Some (FileItem.key f).
Proof.
  unfold push_folder.
  destruct (Js.truthy (Prefix cp)) as [p|] eqn:Hp; [|intros [= <- _]; by left].
  apply truthy_Some in Hp.
  destruct (Js.truthy _); [|intros [= <- _]; by left].
  intros (now & s1 & _ & [= <- _])%bind_Return. right. eauto.
Qed.

Lemma push_file_Return prefix files o s files' s' :
  push_file P toLowerCase prefix files o s = (Return files', s') →
  files' = files ∨
  ∃ f, files' = files ++ [f] ∧ FileItem.type f = file ∧ Key o = Some (FileItem.key f).
Proof.
  unfold push_file.
  destruct (Js.truthy (Key o)) as [k|] eqn:Hk; [|intros [= <- _]; by left].
  apply truthy_Some in Hk.
  destruct (_ && _); [|intros [= <- _]; by left].
  intros (now & s1 & _ & [= <- _])%bind_Return. right. eauto.
Qed.

(** A listing that returns: the response it was computed from, and the
    entries in the order in which they were pushed. *)
Lemma listFiles_Return prefix s items s' :
  listFiles P toLowerCase localeCompare this prefix s = (Return items, s') →
  ∃ response w files,
    send P (s3Client this)
      (ListObjectsV2Command (this_bucketName this) (Some prefix) (Some "/") None)
      (world s) = (Return response, w) ∧
    items = sort (compare_listing localeCompare) files ∧
    Forall (listed_from response) files.
Proof.
  unfold listFiles.
  intros (response & s1 & (w & Hsend & _)%client_send_Return & H)%rethrow_Return%bind_Return.
  apply bind_Return in H as (folders & s2 & Hfolders & H).
  apply bind_Return in H as (files & s3 & Hfiles & [= <- _]).
  exists response, w, files. split; [done|]. split; [done|].
  assert (Forall (listed_from response) folders) as Hinv.
  { destruct (CommonPrefixes response) as [l|] eqn:Hl; [|by injection Hfolders as <-].
    revert Hfolders. apply for_of_Return_inv; [|constructor].
    intros acc cp t acc' t' Hcp Hacc [->|(f & -> & ? & ? & ?)]%push_folder_Return; [done|].
    apply Forall_app. split; [done|]. apply Forall_singleton. left. eauto 10. }
  destruct (Contents response) as [l|] eqn:Hl; [|by injection Hfiles as <-].
  revert Hfiles. apply for_of_Return_inv; [|done].
  intros acc o t acc' t' Ho Hacc [->|(f & -> & ? & ?)]%push_file_Return; [done|].
  apply Forall_app. split; [done|]. apply Forall_singleton. right. eauto 10.
Qed.

(** The loops of the listing always return. *)
Lemma for_of_push_folder_returns prefix l files s :
  ∃ files' s', for_of l (push_folder P prefix) files s = (Return files', s').
Proof.
  revert files s. induction l as [|cp l IH]; intros files s; simpl; [by eexists _, _|].
  assert (∃ files1 s1, push_folder P prefix files cp s = (Return files1, s1))
    as (files1 & s1 & H1).
  { unfold push_folder. repeat case_match; try by eexists _, _.
    destruct (new_Date_Return s) as (d & s2 & Hd).
    erewrite bind_step by exact Hd. by eexists _, _. }
  erewrite bind_step by exact H1. apply IH.
Qed.

Lemma for_of_push_file_returns prefix l files s :
  ∃ files' s', for_of l (push_file P toLowerCase prefix) files s = (Return files', s').
Proof.
  revert files s. induction l as [|o l IH]; intros files s; simpl; [by eexists _, _|].
  assert (∃ files1 s1, push_file P toLowerCase prefix files o s = (Return files1, s1))
    as (files1 & s1 & H1).
  { unfold push_file. destruct (Js.truthy (Key o)); [|by eexists _, _].
    destruct (_ && _); [|by eexists _, _].
    destruct (LastModified o).
    - erewrite bind_step by reflexivity. by eexists _, _.
    - destruct (new_Date_Return s) as (d & s2 & Hd).
      erewrite bind_step by exact Hd. by eexists _, _. }
  erewrite bind_step by exact H1. apply IH.
Qed.

(** The listing returns whenever the store answers the list command. *)
Lemma listFiles_returns prefix s response w :
  send P (s3Client this)
    (ListObjectsV2Command (this_bucketName this) (Some prefix) (Some "/") None)
    (world s) = (Return response, w) →
  ∃ items s', listFiles P toLowerCase localeCompare this prefix s = (Return items, s').
Proof.
  intros Hsend. unfold listFiles, try_catch.
  erewrite bind_step by (unfold client_send; rewrite Hsend; reflexivity).
  set (s1 := {| world := w |}).
  assert (∃ folders s2,
    match CommonPrefixes response with
    | Some prefixes => for_of prefixes (push_folder P prefix) []
    | None => ret []
    end s1 = (Return folders, s2)) as (folders & s2 & H2).
  { destruct (CommonPrefixes response); [apply for_of_push_folder_returns|by eexists _, _]. }
  erewrite bind_step by exact H2.
  assert (∃ files s3,
    match Contents response with
    | Some contents => for_of contents (push_file P toLowerCase prefix) folders
    | None => ret folders
    end s2 = (Return files, s3)) as (files & s3 & H3).
  { destruct (Contents response); [apply for_of_push_file_returns|by eexists _, _]. }
  erewrite bind_step by exact H3. by eexists _, _.
Qed.

Lemma within_folder prefix response l cp p :
  within prefix response = true → CommonPrefixes response = Some l → cp ∈ l →
  Prefix cp = Some p → Js.startsWith p prefix = true.
Proof.
  unfold within. intros [H _]%andb_true_iff Hl Hcp Hp. rewrite Hl in H. simpl in H.
  rewrite forallb_forall in H. apply list_elem_of_In, H in Hcp. by rewrite Hp in Hcp.
Qed.

Lemma within_file prefix response l o k :
  within prefix response = true → Contents response = Some l → o ∈ l →
  Key o = Some k → Js.startsWith k prefix = true.
Proof.
  unfold within. intros [_ H]%andb_true_iff Hl Ho Hk. rewrite Hl in H. simpl in H.
  rewrite forallb_forall in H. apply list_elem_of_In, H in Ho. by rewrite Hk in Ho.
Qed.
End Listing.

(** C1. When the response of the store to the list command for prefix
    [prefix] keeps to that prefix (every key of [Contents] and every prefix
    of [CommonPrefixes] begins with it), every entry that [listFiles prefix]
    returns, folder or file, has a key that begins with [prefix]. *)
Theorem listFiles_keys_within_prefix {World} (P : Platform World)
    (toLowerCase : string → string) (localeCompare : string → string → Z)
    (this : S3Service) (prefix : string) (s s' : State World) (items : list FileItem) :
  (∀ response w,
     send P (s3Client this)
       (ListObjectsV2Command (this_bucketName this) (Some prefix) (Some "/") None)
       (world s) = (Return response, w) →
     within prefix response = true) →
  listFiles P toLowerCase localeCompare this prefix s = (Return items, s') →
  ∀ f, f ∈ items → Js.startsWith (FileItem.key f) prefix = true.
Proof.
  intros Hcontract (response & w & files & Hsend & -> & Hfiles)%listFiles_Return f Hf.
  apply elem_of_sort in Hf. rewrite Forall_forall in Hfiles.
  specialize (Hcontract _ _ Hsend).
  destruct (Hfiles f Hf) as [(_ & _ & l & cp & ? & ? & ?)|(_ & l & o & ? & ? & ?)].
  - by eapply within_folder.
  - by eapply within_file.
Qed.

(** C6. Every entry of kind [folder] that the listing returns has size 0,
    whatever the prefix, the state and the response of the store. *)
Theorem listFiles_folder_size_zero {World} (P : Platform World)
    (toLowerCase : string → string) (localeCompare : string → string → Z)
    (this : S3Service) (prefix : string) (s s' : State World) (items : list FileItem) :
  listFiles P toLowerCase localeCompare this prefix s = (Return items, s') →
  ∀ f, f ∈ items → FileItem.type f = folder → FileItem.size f = 0.
Proof.
  intros (response & w & files & Hsend & -> & Hfiles)%listFiles_Return f Hf Hfolder.
  apply elem_of_sort in Hf. rewrite Forall_forall in Hfiles.
  destruct (Hfiles f Hf) as [(_ & ? & _)|(Hfile & _)]; [done|congruence].
Qed.

(** ** The display: filters and order *)

Section Display.
Variable toLowerCase : string → string.
Variable localeCompare : string → string → Z.

Lemma is_folder_true f : is_folder f = true ↔ FileItem.type f = folder.
Proof. unfold is_folder. by rewrite bool_decide_eq_true. Qed.

Lemma is_folder_false f : is_folder f = false ↔ FileItem.type f = file.
Proof.
  unfold is_folder. rewrite bool_decide_eq_false. destruct (FileItem.type f); naive_solver.
Qed.

Lemma Forall_filter_folder (l : list FileItem) :
  Forall (λ f, FileItem.type f = folder) (List.filter is_folder l).
Proof.
  apply Forall_forall. intros f [_ H]%list_elem_of_In%filter_In. by apply is_folder_true.
Qed.

Lemma Forall_filter_file (l : list FileItem) :
  Forall (λ f, FileItem.type f = file) (List.filter (λ f, negb (is_folder f)) l).
Proof.
  apply Forall_forall. intros f [_ H]%list_elem_of_In%filter_In.
  by apply is_folder_false, negb_true_iff.
Qed.

(** A comparison function that tests the kinds first, as both comparison
    functions of the sources do, sorts folders before files, and each
    group by what it does on entries of one kind. *)
Lemma sort_folders_first (compare inner : FileItem → FileItem → Z) (l : list FileItem) :
  (∀ a b, compare a b =
          if decide (FileItem.type a ≠ FileItem.type b)
          then (if decide (FileItem.type a = folder) then -1 else 1)
          else inner a b) →
  sort compare l =
    sort inner (List.filter is_folder l)
    ++ sort inner (List.filter (λ f, negb (is_folder f)) l).
Proof.
  intros Hcompare.
  rewrite (sort_groups compare is_folder).
  - f_equal; apply sort_ext; intros a b Ha Hb; rewrite Hcompare.
    + apply list_elem_of_In, filter_In in Ha as [_ Ha%is_folder_true].
      apply list_elem_of_In, filter_In in Hb as [_ Hb%is_folder_true].
      rewrite decide_False; [done|]. intros H. congruence.
    + apply list_elem_of_In, filter_In in Ha as [_ Ha%negb_true_iff%is_folder_false].
      apply list_elem_of_In, filter_In in Hb as [_ Hb%negb_true_iff%is_folder_false].
      rewrite decide_False; [done|]. intros H. congruence.
  - intros a b Ha%is_folder_true Hb%is_folder_false. rewrite Hcompare.
    rewrite decide_True by congruence. by rewrite decide_True.
  - intros a b Ha%is_folder_false Hb%is_folder_true. rewrite Hcompare.
    rewrite decide_True by congruence. by rewrite decide_False by congruence.
Qed.

Lemma filteredAndSortedFiles_groups files searchTerm filterType sortBy sortOrder :
  filteredAndSortedFiles toLowerCase localeCompare files searchTerm filterType sortBy sortOrder
  = sort (compare_key localeCompare sortBy sortOrder)
      (List.filter is_folder (filtered_files toLowerCase files searchTerm filterType))
    ++ sort (compare_key localeCompare sortBy sortOrder)
         (List.filter (λ f, negb (is_folder f))
            (filtered_files toLowerCase files searchTerm filterType)).
Proof. unfold filteredAndSortedFiles. by apply sort_folders_first. Qed.

Lemma sort_compare_listing (l : list FileItem) :
  sort (compare_listing localeCompare) l
  = sort (compare_key localeCompare by_name asc) (List.filter is_folder l)
    ++ sort (compare_key localeCompare by_name asc)
         (List.filter (λ f, negb (is_folder f)) l).
Proof. by apply sort_folders_first. Qed.

Lemma Forall_sort {A} (compare : A → A → Z) (Q : A → Prop) (l : list A) :
  Forall Q l → Forall Q (sort compare l).
Proof. by rewrite sort_perm. Qed.

(** Within a group the entries are in the order of the key, when the
    host's [localeCompare] is a total and transitive comparison. *)
Lemma compare_key_sorted sortBy sortOrder (l : list FileItem) :
  (∀ x y, 0 < localeCompare x y → localeCompare y x <= 0) →
  (∀ x y, localeCompare x y < 0 → 0 <= localeCompare y x) →
  (∀ x y z, localeCompare x y <= 0 → localeCompare y z <= 0 → localeCompare x z <= 0) →
  (∀ x y z, 0 <= localeCompare x y → 0 <= localeCompare y z → 0 <= localeCompare x z) →
  StronglySorted (λ a b, compare_key localeCompare sortBy sortOrder a b <= 0)
    (sort (compare_key localeCompare sortBy sortOrder) l).
Proof.
  intros Hgt Hlt Hle Hge. apply sort_StronglySorted; unfold compare_key.
  - intros x y. destruct sortBy, sortOrder; try lia.
    + apply Hgt.
    + intros H. pose proof (Hlt (FileItem.name x) (FileItem.name y)). lia.
  - intros x y z. destruct sortBy, sortOrder; try lia.
    + apply Hle.
    + intros H1 H2.
      pose proof (Hge (FileItem.name x) (FileItem.name y) (FileItem.name z)). lia.
Qed.

Lemma type_filter_folder filterType f :
  FileItem.type f = folder → type_filter toLowerCase filterType f = false.
Proof. intros H. unfold type_filter. by rewrite decide_True. Qed.
End Display.

(** C9. The displayed list is the folders that pass the filters, in the
    order of the sort key and the sort order, followed by the files that
    pass the filters, in the order of the sort key and the sort order:
    every folder comes before every file, and the key and the order decide
    only within each group. The listing that returns gives the folders it
    pushed, in the order of their names, followed by the files it pushed,
    in the order of their names. *)
Theorem folders_before_files {World} (P : Platform World)
    (toLowerCase : string → string) (localeCompare : string → string → Z)
    (this : S3Service) (prefix : string) (s s' : State World) (items : list FileItem)
    (files : list FileItem) (searchTerm : string) (filterType : FileType)
    (sortBy : SortBy) (sortOrder : SortOrder) :
  listFiles P toLowerCase localeCompare this prefix s = (Return items, s') →
  let shown :=
    filteredAndSortedFiles toLowerCase localeCompare files searchTerm filterType
      sortBy sortOrder in
  let kept := filtered_files toLowerCase files searchTerm filterType in
  (∃ folders others,
     shown = folders ++ others ∧
     folders = sort (compare_key localeCompare sortBy sortOrder) (List.filter is_folder kept) ∧
     others = sort (compare_key localeCompare sortBy sortOrder)
                (List.filter (λ f, negb (is_folder f)) kept) ∧
     Forall (λ f, FileItem.type f = folder) folders ∧
     Forall (λ f, FileItem.type f = file) others) ∧
  (∃ pushed folders others,
     items = folders ++ others ∧
     folders = sort (compare_key localeCompare by_name asc) (List.filter is_folder pushed) ∧
     others = sort (compare_key localeCompare by_name asc)
                (List.filter (λ f, negb (is_folder f)) pushed) ∧
     Forall (λ f, FileItem.type f = folder) folders ∧
     Forall (λ f, FileItem.type f = file) others).
Proof.
  intros (response & w & pushed & _ & -> & _)%listFiles_Return shown kept. split.
  - eexists _, _. split; [apply filteredAndSortedFiles_groups|].
    repeat split; auto using Forall_sort, Forall_filter_folder, Forall_filter_file.
  - exists pushed. eexists _, _. split; [apply sort_compare_listing|].
    repeat split; auto using Forall_sort, Forall_filter_folder, Forall_filter_file.
Qed.

(** C10. With a type filter other than [all] the displayed list holds no
    folder: every entry of it is a file. With the filter [all], a folder of
    the input that the search keeps (the search term is empty, or the lower
    case of the folder's name includes the lower case of the term) is
    displayed. *)
Theorem type_filter_drops_folders_search_keeps_matches
    (toLowerCase : string → string) (localeCompare : string → string → Z)
    (files : list FileItem) (searchTerm : string) (filterType : FileType)
    (sortBy : SortBy) (sortOrder : SortOrder) :
  filterType ≠ all →
  (∀ f, f ∈ filteredAndSortedFiles toLowerCase localeCompare files searchTerm filterType
             sortBy sortOrder →
        FileItem.type f = file) ∧
  (∀ f, f ∈ files → FileItem.type f = folder →
        searchTerm = "" ∨ search_filter toLowerCase searchTerm f = true →
        f ∈ filteredAndSortedFiles toLowerCase localeCompare files searchTerm all
              sortBy sortOrder).
Proof.
  intros Hfilter. split.
  - intros f Hf. unfold filteredAndSortedFiles in Hf. apply elem_of_sort in Hf.
    unfold filtered_files in Hf. rewrite decide_True in Hf by done.
    apply list_elem_of_In, filter_In in Hf as [_ Hf].
    destruct (FileItem.type f) eqn:Hkind; [done|].
    by rewrite type_filter_folder in Hf.
  - intros f Hf Hkind Hsearch. unfold filteredAndSortedFiles. apply elem_of_sort.
    unfold filtered_files. rewrite decide_False by (intros H; by apply H).
    destruct searchTerm as [|c term]; simpl; [done|].
    destruct Hsearch as [?|Hsearch]; [done|].
    apply list_elem_of_In, filter_In. split; [by apply list_elem_of_In|done].
Qed.

(** ** The rename dialog *)

Section LastIndexOf.
Variable c : ascii.

Lemma lastIndexOf_from_range i s :
  Js.lastIndexOf_from i c s = -1 ∨
  i <= Js.lastIndexOf_from i c s < i + Z.of_nat (Js.length s).
Proof.
  revert i. induction s as [|d s IH]; intros i; simpl; [by left|].
  destruct (IH (i + 1)) as [->|H]; simpl.
  - destruct (Ascii.eqb d c); [right; lia|by left].
  - destruct (Z.leb_spec 0 (Js.lastIndexOf_from (i + 1) c s)).
    + right. unfold Js.length in *. lia.
    + destruct (Ascii.eqb d c); [right; lia|by left].
Qed.

(** The index does not depend on where the count starts. *)
Lemma lastIndexOf_from_absent i j s :
  0 <= i → 0 <= j → Js.lastIndexOf_from i c s = -1 → Js.lastIndexOf_from j c s = -1.
Proof.
  revert i j. induction s as [|d s IH]; intros i j Hi Hj; simpl; [done|].
  destruct (lastIndexOf_from_range (i + 1) s) as [Hs|Hs].
  - rewrite Hs, (IH (i + 1) (j + 1)) by (done || lia). simpl.
    destruct (Ascii.eqb d c); [lia|done].
  - destruct (Z.leb_spec 0 (Js.lastIndexOf_from (i + 1) c s)); lia.
Qed.

(** What follows the last occurrence holds no further occurrence. *)
Lemma slice_lastIndexOf_from i s :
  0 <= i → 0 <= Js.lastIndexOf_from i c s →
  ∃ rest, Js.slice (Z.to_nat (Js.lastIndexOf_from i c s - i)) s = String c rest ∧
          Js.lastIndexOf c rest = -1.
Proof.
  revert i. induction s as [|d s IH]; intros i Hi; simpl; [lia|].
  destruct (lastIndexOf_from_range (i + 1) s) as [Hs|Hs].
  - rewrite Hs. simpl. destruct (Ascii.eqb_spec d c) as [->|]; [|lia].
    intros _. rewrite Z.sub_diag. simpl. exists s. split; [done|].
    eapply lastIndexOf_from_absent; [| |exact Hs]; lia.
  - destruct (Z.leb_spec 0 (Js.lastIndexOf_from (i + 1) c s)); [|lia].
    intros _. destruct (IH (i + 1)) as (rest & Hrest & Hno); [lia..|].
    exists rest. split; [|done].
    replace (Z.to_nat (Js.lastIndexOf_from (i + 1) c s - i))
      with (S (Z.to_nat (Js.lastIndexOf_from (i + 1) c s - (i + 1)))) by lia.
    done.
Qed.

Lemma lastIndexOf_from_app i t rest :
  0 <= i → Js.lastIndexOf c rest = -1 →
  Js.lastIndexOf_from i c (t +:+ String c rest) = i + Z.of_nat (Js.length t).
Proof.
  intros Hi Hrest. revert i Hi. induction t as [|d t IH]; intros i Hi.
  - rewrite app_empty_l. simpl.
    rewrite (lastIndexOf_from_absent 0 (i + 1) rest) by (done || lia).
    simpl. rewrite Ascii.eqb_refl. lia.
  - rewrite app_String. simpl. rewrite IH by lia.
    destruct (Z.leb_spec 0 (i + 1 + Z.of_nat (Js.length t))); unfold Js.length in *; lia.
Qed.
End LastIndexOf.

Section Rename.
Variable trim : string → string.

(** An extension is empty, or a dot followed by characters other than
    the dot. *)
Lemma extension_of_shape fileName :
  extension_of fileName = "" ∨
  ∃ rest, extension_of fileName = String "." rest ∧ Js.lastIndexOf "." rest = -1.
Proof.
  unfold extension_of, getFileNameAndExtension. simpl.
  destruct (Z.leb_spec (Js.lastIndexOf "." fileName) 0); [by left|]. right. simpl.
  destruct (slice_lastIndexOf_from "." 0 fileName) as (rest & Hrest & Hno);
    [done|unfold Js.lastIndexOf in *; lia|].
  rewrite Z.sub_0_r in Hrest. eauto.
Qed.

Lemma extension_of_app t rest :
  t ≠ "" → Js.lastIndexOf "." rest = -1 →
  extension_of (t +:+ String "." rest) = String "." rest.
Proof.
  intros Ht Hrest. unfold extension_of, getFileNameAndExtension, Js.lastIndexOf. simpl.
  rewrite lastIndexOf_from_app by done.
  destruct t as [|d t]; [done|].
  destruct (Z.leb_spec (0 + Z.of_nat (Js.length (String d t))) 0) as [H|_];
    [simpl in H; lia|].
  simpl snd. rewrite Z.add_0_l, Nat2Z.id. apply slice_app.
Qed.

Lemma dialog_handleRename_file f renameName :
  trim renameName ≠ "" → FileItem.type f = file →
  dialog_handleRename trim (Some f) renameName
  = Some (f, trim renameName +:+ extension_of (FileItem.name f)).
Proof.
  intros Hname Hkind. unfold dialog_handleRename.
  destruct (trim renameName) as [|d t] eqn:Ht; [done|]. simpl.
  rewrite decide_True by done. by rewrite bool_decide_eq_true_2.
Qed.

Lemma dialog_handleRename_folder f renameName :
  trim renameName ≠ "" → FileItem.type f = folder →
  dialog_handleRename trim (Some f) renameName = Some (f, trim renameName).
Proof.
  intros Hname Hkind. unfold dialog_handleRename.
  destruct (trim renameName) as [|d t] eqn:Ht; [done|]. simpl.
  rewrite decide_False; [done|]. congruence.
Qed.
End Rename.

(** C3, as amended. With an input that is not empty once trimmed, the
    rename dialog passes on, for a file, the trimmed input followed by the
    extension of the original name, and this final name has the extension
    of the original name whenever that extension is not empty; for a
    folder, it passes on the trimmed input unchanged. *)
Theorem rename_dialog_final_name (trim : string → string) (f : FileItem)
    (renameName : string) :
  trim renameName ≠ "" →
  match FileItem.type f with
  | file =>
      dialog_handleRename trim (Some f) renameName
      = Some (f, trim renameName +:+ extension_of (FileItem.name f)) ∧
      (extension_of (FileItem.name f) ≠ "" →
       extension_of (trim renameName +:+ extension_of (FileItem.name f))
       = extension_of (FileItem.name f))
  | folder => dialog_handleRename trim (Some f) renameName = Some (f, trim renameName)
  end.
Proof.
  intros Hname. destruct (FileItem.type f) eqn:Hkind.
  - split; [by apply dialog_handleRename_file|].
    destruct (extension_of_shape (FileItem.name f)) as [->|(rest & -> & Hrest)]; [done|].
    intros _. by apply extension_of_app.
  - by apply dialog_handleRename_folder.
Qed.

Lemma split_nonempty sep s : Js.split sep s ≠ [].
Proof.
  destruct s as [|c s]; simpl; [done|].
  destruct (Ascii.eqb c sep); [done|]. by destruct (Js.split sep s).
Qed.

Lemma insert_last {A} (l : list A) (x : A) :
  l ≠ [] → <[(List.length l - 1)%nat := x]> l = removelast l ++ [x].
Proof.
  induction l as [|y l IH]; [done|]. intros _.
  destruct l as [|z l]; [done|].
  change (removelast (y :: z :: l)) with (y :: removelast (z :: l)).
  rewrite <- app_comm_cons, <- IH by done.
  replace (List.length (y :: z :: l) - 1)%nat with (S (List.length (z :: l) - 1))
    by (simpl; lia).
  done.
Qed.

Lemma renamedKey_replaces_last_segment oldKey newName :
  renamedKey oldKey newName = replace_last_segment oldKey newName.
Proof.
  unfold renamedKey, replace_last_segment. rewrite insert_last; [done|].
  apply split_nonempty.
Qed.

(** ** The rename of a key that holds a URL escape *)

(** C2. The rename does not encode the key that it names as the source of
    the copy, and the store decodes the source. The bucket holds an object
    at [%41.txt] and another at [A.txt]. The rename of [%41.txt] to
    [new.txt] returns: it has sent the copy from [b/%41.txt], which the
    store reads as [b/A.txt], to the key that replaces the last segment,
    and then the delete of [%41.txt]. Afterwards [new.txt] holds the content
    of [A.txt] and not that of the renamed object, [%41.txt] holds nothing,
    and the content of the renamed object is at no key of the bucket. *)
Theorem rename_loses_escaped_key :
  let before := MemS3.contents (world Tour.escaped_state) in
  let run := Tour.rename_escaped Tour.escaped_state in
  let after := MemS3.contents (world run.2) in
  before !! "%41.txt" = Some [Byte.x58] ∧ before !! "A.txt" = Some [Byte.x41] ∧
  run.1 = Return tt ∧
  trace run.2
  = [Sent (CopyObjectCommand "b" "b/%41.txt" (replace_last_segment "%41.txt" "new.txt")) None;
     Sent (DeleteObjectCommand "b" "%41.txt") None] ∧
  replace_last_segment "%41.txt" "new.txt" = "new.txt" ∧
  after !! "new.txt" = Some [Byte.x41] ∧ after !! "%41.txt" = None ∧
  ∀ k, after !! k ≠ Some [Byte.x58].
Proof.
  intros before run after. subst before run after.
  split; [vm_compute; reflexivity|]. split; [vm_compute; reflexivity|].
  split; [vm_compute; reflexivity|]. split; [vm_compute; reflexivity|].
  split; [vm_compute; reflexivity|]. split; [vm_compute; reflexivity|].
  split; [vm_compute; reflexivity|].
  intros k Hk. apply elem_of_map_to_list in Hk.
  match type of Hk with
  | _ ∈ ?l =>
      assert (l = [("A.txt", [Byte.x41]); ("new.txt", [Byte.x41])]) as Hafter
        by (vm_compute; reflexivity);
      rewrite Hafter in Hk
  end.
  apply list_elem_of_In in Hk. destruct Hk as [[= _ ?]|[[= _ ?]|[]]].
Qed.

(** ** The handlers of the dashboard *)

Section Handlers.
Context {World : Type} (P : Platform World).
Variable toLowerCase : string → string.
Variable localeCompare : string → string → Z.
Variable creds : S3Credentials.
Variable currentPath : string.

Let this := new_S3Service creds.
Let bucket := bucketName creds.

Lemma bulk_handler_unfold action items :
  bulk_handler P toLowerCase localeCompare creds currentPath action items = (bulk_loop P creds action items ;; after_loop P toLowerCase localeCompare creds currentPath action).
Proof. by destruct action. Qed.

Lemma catch_throw_same {A} (m : M World A) s :
  try_catch m (λ error, throw error) s = m s.
Proof. unfold try_catch, throw. by destruct (m s) as [[]]. Qed.

Lemma bulk_loop_cons action x items s :
  bulk_loop P creds action (x :: items) s
  = bind (item_call P creds action x) (λ _, bulk_loop P creds action items) s.
Proof.
  unfold bulk_loop. simpl. unfold bind. rewrite catch_throw_same.
  by destruct (item_call P creds action x s) as [[[]|]].
Qed.

(** The loop goes through the items that return, in order ... *)
Lemma bulk_loop_app action pre rest s s1 :
  runs_in_turn (item_call P creds action <$> pre) s s1 →
  bulk_loop P creds action (pre ++ rest) s = bulk_loop P creds action rest s1.
Proof.
  revert s. induction pre as [|x pre IH]; intros s; simpl.
  - by intros ->.
  - intros (s0 & Hx & Hpre). rewrite bulk_loop_cons.
    erewrite bind_step by exact Hx. by apply IH.
Qed.

(** ... and stops at the first that throws. *)
Lemma bulk_loop_Throw action x post s e s' :
  item_call P creds action x s = (Throw e, s') →
  bulk_loop P creds action (x :: post) s = (Throw e, s').
Proof. intros Hx. rewrite bulk_loop_cons. by apply bind_Throw. Qed.

(** The trace of one call of the service *)
Lemma item_call_trace action x s :
  match item_call P creds action x s with
  | (Return _, s') => trace s' = trace s ++ [Sent (item_command creds action x) None]
  | (Throw _, s') =>
      trace s' = trace s ∨
      ∃ e0, trace s' = trace s ++ [Sent (item_command creds action x) (Some e0)]
  end.
Proof.
  destruct action as [[|c path]|]; simpl.
  1, 2: unfold uploadFile, try_catch, bind, settle, client_send, rethrow, throw;
    destruct (File.arrayBuffer x) as [fileBuffer|e]; simpl; [|by left];
    destruct (send P _ _ _) as [[out|e] w]; simpl; eauto.
  unfold deleteFile, try_catch, bind, client_send, rethrow, throw.
  destruct (send P _ _ _) as [[out|e] w]; simpl; eauto.
Qed.

Lemma runs_in_turn_trace action pre s s1 :
  runs_in_turn (item_call P creds action <$> pre) s s1 →
  trace s1 = trace s ++ ((λ x, Sent (item_command creds action x) None) <$> pre).
Proof.
  revert s. induction pre as [|x pre IH]; intros s; simpl.
  - intros ->. by rewrite app_nil_r.
  - intros (s0 & Hx & Hpre). pose proof (item_call_trace action x s) as Ht.
    rewrite Hx in Ht. rewrite (IH _ Hpre), Ht, <- app_assoc. done.
Qed.
End Handlers.

(** C5. In an upload of several files and in a delete of several items, as
    long as the calls of the service for the items [pre] return, in list
    order, the trace holds their commands in that order and no other event.
    If the call for the next item [x] throws, the handler throws the very
    same value and stops in the state of that throw: the command of [x] is
    the last event, if it was sent at all, and no item after [x] is
    attempted. If no item is left, the handler goes on with what follows the
    loop. *)
Theorem bulk_actions_stop_at_first_failure {World} (P : Platform World)
    (toLowerCase : string → string) (localeCompare : string → string → Z)
    (creds : S3Credentials) (currentPath : string) (action : Bulk)
    (pre rest : list (item action)) (s s1 : State World) :
  runs_in_turn (item_call P creds action <$> pre) s s1 →
  trace s1 = trace s ++ ((λ x, Sent (item_command creds action x) None) <$> pre) ∧
  (∀ x post e s2,
     rest = x :: post → item_call P creds action x s1 = (Throw e, s2) →
     bulk_handler P toLowerCase localeCompare creds currentPath action (pre ++ rest) s
     = (Throw e, s2) ∧
     (trace s2 = trace s1 ∨
      ∃ e0, trace s2 = trace s1 ++ [Sent (item_command creds action x) (Some e0)])) ∧
  (rest = [] →
   bulk_handler P toLowerCase localeCompare creds currentPath action (pre ++ rest) s
   = after_loop P toLowerCase localeCompare creds currentPath action s1).
Proof.
  intros Hpre. split; [by eapply runs_in_turn_trace|]. split.
  - intros x post e s2 -> Hx. split.
    + rewrite bulk_handler_unfold. apply bind_Throw.
      erewrite bulk_loop_app by exact Hpre. by apply bulk_loop_Throw.
    + pose proof (item_call_trace P creds action x s1) as Ht. by rewrite Hx in Ht.
  - intros ->. rewrite bulk_handler_unfold.
    erewrite bind_step; [done|]. by erewrite bulk_loop_app by exact Hpre.
Qed.

(** ** Creating a folder *)

Section CreateFolder.
Context {World : Type} (P : Platform World).
Variable toLowerCase : string → string.
Variable localeCompare : string → string → Z.
Variable creds : S3Credentials.

Let this := new_S3Service creds.

Lemma silent_each {A} (m : M World A) :
  emits m (each (λ _, False)) → emits m (λ evs _, evs = []).
Proof.
  intros H. eapply emits_weaken; [exact H|]. intros evs r Hevs.
  by destruct Hevs as [|ev evs' []].
Qed.

Lemma listFiles_emits prefix :
  emits (listFiles P toLowerCase localeCompare this prefix)
    (λ evs _, ∃ g,
       evs = [Sent (ListObjectsV2Command (bucketName creds) (Some prefix) (Some "/") None) g]).
Proof.
  unfold listFiles.
  set (command := ListObjectsV2Command (bucketName creds) (Some prefix) (Some "/") None).
  eapply emits_try_catch with
    (Q1 := λ evs _, ∃ g, evs = [Sent command g]) (Q2 := λ _ evs _, evs = []).
  - eapply emits_bind with
      (Q1 := λ evs r, evs = [Sent command (failure_of r)]) (Q2 := λ _ evs _, evs = []).
    + apply emits_client_send.
    + intros response. apply silent_each. unfold push_folder, push_file.
      repeat first
        [ apply each_bind; [|intros ?]
        | apply each_for_of; intros ? ?
        | apply each_ret | apply each_new_Date
        | match goal with
          | |- emits (match ?x with _ => _ end) _ => destruct x
          | |- emits (if ?x then _ else _) _ => destruct x
          end ].
    + intros evs e ->. eauto.
    + intros evs1 a evs2 r -> ->. eauto.
  - intros e. eapply emits_weaken; [apply emits_throw|]. by intros evs r [-> _].
  - eauto.
  - intros evs1 e evs2 r [g ->] ->. eauto.
Qed.

Lemma loadFiles_emits path :
  emits (loadFiles P toLowerCase localeCompare (Some creds) path)
    (λ evs _, ∃ g,
       evs = [Sent (ListObjectsV2Command (bucketName creds) (Some path) (Some "/") None) g]).
Proof.
  unfold loadFiles.
  set (command := ListObjectsV2Command (bucketName creds) (Some path) (Some "/") None).
  eapply emits_bind with
    (Q1 := λ evs r, evs = [] ∧ r = Return tt)
    (Q2 := λ _ evs _, ∃ g, evs = [Sent command g]).
  - apply emits_modify_ui.
  - intros _. apply emits_try_finally; [done|].
    eapply emits_try_catch with
      (Q1 := λ evs _, ∃ g, evs = [Sent command g]) (Q2 := λ _ evs _, evs = []).
    + eapply emits_bind with
        (Q1 := λ evs _, ∃ g, evs = [Sent command g]) (Q2 := λ _ evs _, evs = []).
      * apply listFiles_emits.
      * intros fileList. apply silent_each.
        apply each_bind; [|intros ?];
          (eapply each_silent, emits_modify_ui).
      * eauto.
      * intros evs1 a evs2 r [g ->] ->. eauto.
    + intros e. eapply emits_weaken; [apply emits_ret|]. by intros evs r [-> _].
    + eauto.
    + intros evs1 e evs2 r [g ->] ->. eauto.
  - by intros evs e [_ ?].
  - by intros evs1 a evs2 r [-> _] H.
Qed.

Lemma createFolder_emits folderPath s :
  match createFolder P this folderPath s with
  | (Return _, s') =>
      trace s' = trace s ++
        [Sent (PutObjectCommand (bucketName creds) folderPath (BodyString "") None None) None]
  | (Throw _, s') =>
      ∃ e0, trace s' = trace s ++
        [Sent (PutObjectCommand (bucketName creds) folderPath (BodyString "") None None)
           (Some e0)]
  end.
Proof.
  unfold createFolder, try_catch, bind, client_send, rethrow, throw.
  destruct (send P _ _ _) as [[out|e] w]; simpl; eauto.
Qed.

(** The dialog passes on the trimmed name, when it is not empty. *)
Lemma dialog_handleCreateFolder_trimmed trim newFolderName :
  dialog_handleCreateFolder trim newFolderName
  = if decide (trim newFolderName = "") then None else Some (trim newFolderName).
Proof. unfold dialog_handleCreateFolder. by destruct (trim newFolderName). Qed.
End CreateFolder.

(** C7. Creating the folder [folderName] (the name that the dialog passes
    on is the trimmed input, and it is not empty) while the dashboard is at
    [currentPath] sends first one put with the empty body, at the key
    [currentPath + folderName + "/"], which is [folderName + "/"] at the
    root; when that put fails nothing else is sent, and when it returns the
    only other command is the list of [currentPath] that reloads the view.
    The put is the only command of the handler that changes the bucket. *)
Theorem create_folder_single_put {World} (P : Platform World)
    (toLowerCase : string → string) (localeCompare : string → string → Z)
    (creds : S3Credentials) (currentPath folderName : string) (s : State World) :
  let s' := (handleCreateFolder P toLowerCase localeCompare (Some creds) currentPath
               folderName s).2 in
  let key := match currentPath with
             | EmptyString => folderName +:+ "/"
             | _ => currentPath +:+ folderName +:+ "/"
             end in
  let put := PutObjectCommand (bucketName creds) key (BodyString "") None None in
  ∃ f rest,
    trace s' = trace s ++ Sent put f :: rest ∧
    match f with
    | Some _ => rest = []
    | None =>
        ∃ g, rest = [Sent (ListObjectsV2Command (bucketName creds) (Some currentPath)
                             (Some "/") None) g]
    end ∧
    List.filter mutates (Sent put f :: rest) = [Sent put f].
Proof.
  intros s' key put. subst s'. unfold handleCreateFolder.
  rewrite catch_throw_same. unfold bind.
  replace (match Js.truthy (Some currentPath) with
           | Some _ => currentPath +:+ folderName +:+ "/"
           | None => folderName +:+ "/"
           end) with key by (by destruct currentPath).
  pose proof (createFolder_emits P creds key s) as Hput.
  destruct (createFolder P (new_S3Service creds) key s) as [[[]|e] s1]; cbv beta iota.
  - destruct (loadFiles_emits P toLowerCase localeCompare creds currentPath s1)
      as (evs & Ht & g & ->).
    exists None. eexists. rewrite Ht, Hput, <- app_assoc. simpl. eauto.
  - destruct Hput as [e0 Hput]. simpl. rewrite Hput. exists (Some e0), []. eauto.
Qed.

(** ** The theorems at work on the bucket *)

Lemma listFiles_keys_within_prefix_witness :
  Demo.list_docs Demo.state = (Return Demo.listing, (Demo.list_docs Demo.state).2) ∧
  ∀ f, f ∈ Demo.listing → Js.startsWith (FileItem.key f) "docs/" = true.
Proof.
  assert (Demo.list_docs Demo.state = (Return Demo.listing, (Demo.list_docs Demo.state).2))
    as Hrun by (vm_compute; reflexivity).
  split; [exact Hrun|].
  apply (listFiles_keys_within_prefix MemS3.platform Host.toLowerCase Host.localeCompare
           Demo.service "docs/" Demo.state (Demo.list_docs Demo.state).2 Demo.listing);
    [|exact Hrun].
  intros response w Hsend. vm_compute in Hsend. injection Hsend as <- _.
  vm_compute. reflexivity.
Defined.

Lemma listFiles_folder_size_zero_witness :
  Demo.list_docs Demo.state = (Return Demo.listing, (Demo.list_docs Demo.state).2) ∧
  FileItem.size Demo.sub = 0.
Proof.
  assert (Demo.list_docs Demo.state = (Return Demo.listing, (Demo.list_docs Demo.state).2))
    as Hrun by (vm_compute; reflexivity).
  split; [exact Hrun|].
  apply (listFiles_folder_size_zero MemS3.platform Host.toLowerCase Host.localeCompare
           Demo.service "docs/" Demo.state (Demo.list_docs Demo.state).2 Demo.listing
           Hrun Demo.sub);
    [by left|reflexivity].
Defined.

Lemma rename_dialog_final_name_witness :
  Host.trim " b " ≠ "" ∧
  dialog_handleRename Host.trim (Some Demo.a_txt) " b " = Some (Demo.a_txt, "b.txt") ∧
  extension_of "b.txt" = ".txt".
Proof.
  assert (Host.trim " b " ≠ "") as Hname by (vm_compute; discriminate).
  destruct (rename_dialog_final_name Host.trim Demo.a_txt " b " Hname) as [Hfinal Hext].
  split; [exact Hname|]. split; [exact Hfinal|].
  apply Hext. vm_compute. discriminate.
Defined.

(** C3, the claim as it stands, fails: a file without an extension renamed
    to a name with a dot gets the extension that was typed. *)
Lemma rename_dialog_extension_counterexample :
  FileItem.type Demo.readme = file ∧
  Host.trim "notes.txt" ≠ "" ∧
  dialog_handleRename Host.trim (Some Demo.readme) "notes.txt"
    = Some (Demo.readme, "notes.txt") ∧
  extension_of (FileItem.name Demo.readme) = "" ∧
  extension_of "notes.txt" = ".txt" ∧
  extension_of "notes.txt" ≠ extension_of (FileItem.name Demo.readme).
Proof. vm_compute. repeat split; discriminate. Qed.

(** C4, the claim as it stands, fails: when the delete of a rename fails,
    the message of the rename is not its prefix followed by the message of
    the failed call. *)
Lemma rename_failure_message_counterexample :
  let op := RenameFile "readme" "x" in
  let run := perform MemS3.platform Host.toLowerCase Host.localeCompare Demo.service op
               Demo.state in
  trace run.2 = [Sent (CopyObjectCommand "b" "b/readme" "x") None;
                 Sent (DeleteObjectCommand "b" "readme") (Some (JsError "Access Denied"))] ∧
  run.1 = Throw (JsError "Rename failed: Delete failed: Access Denied") ∧
  run.1 ≠ Throw (JsError (failure_prefix op +:+ messageOf (JsError "Access Denied"))).
Proof. vm_compute. repeat split. discriminate. Qed.

Lemma bulk_actions_stop_at_first_failure_witness :
  let s1 := (Demo.delete_a Demo.state).2 in
  let call := item_call MemS3.platform Demo.credentials Delete in
  let e := JsError "Delete failed: Access Denied" in
  runs_in_turn (call <$> [Demo.a_txt]) Demo.state s1 ∧
  call Demo.readme s1 = (Throw e, (call Demo.readme s1).2) ∧
  bulk_handler MemS3.platform Host.toLowerCase Host.localeCompare Demo.credentials ""
    Delete [Demo.a_txt; Demo.readme; Demo.B_PNG] Demo.state
  = (Throw e, (call Demo.readme s1).2).
Proof.
  intros s1 call e.
  assert (runs_in_turn (call <$> [Demo.a_txt]) Demo.state s1) as Hpre.
  { exists s1. split; [vm_compute; reflexivity|reflexivity]. }
  assert (call Demo.readme s1 = (Throw e, (call Demo.readme s1).2)) as Hx
    by (vm_compute; reflexivity).
  split; [exact Hpre|]. split; [exact Hx|].
  destruct (bulk_actions_stop_at_first_failure MemS3.platform Host.toLowerCase
              Host.localeCompare Demo.credentials "" Delete
              [Demo.a_txt] [Demo.readme; Demo.B_PNG] Demo.state s1 Hpre)
    as (_ & Hstop & _).
  exact (proj1 (Hstop Demo.readme [Demo.B_PNG] e _ eq_refl Hx)).
Defined.

Lemma folders_before_files_witness :
  Demo.list_docs Demo.state = (Return Demo.listing, (Demo.list_docs Demo.state).2) ∧
  ∃ folders others,
    filteredAndSortedFiles Host.toLowerCase Host.localeCompare
      [Demo.a_txt; Demo.sub; Demo.B_PNG] "" all by_size desc = folders ++ others ∧
    Forall (λ f, FileItem.type f = folder) folders ∧
    Forall (λ f, FileItem.type f = file) others.
Proof.
  assert (Demo.list_docs Demo.state = (Return Demo.listing, (Demo.list_docs Demo.state).2))
    as Hrun by (vm_compute; reflexivity).
  split; [exact Hrun|].
  destruct (folders_before_files MemS3.platform Host.toLowerCase Host.localeCompare
              Demo.service "docs/" Demo.state (Demo.list_docs Demo.state).2 Demo.listing
              [Demo.a_txt; Demo.sub; Demo.B_PNG] "" all by_size desc Hrun)
    as [(folders & others & Heq & _ & _ & Hfolders & Hothers) _].
  exists folders, others. split; [exact Heq|]. split; [exact Hfolders|exact Hothers].
Defined.

Lemma type_filter_drops_folders_search_keeps_matches_witness :
  images ≠ all ∧
  ∀ f, f ∈ filteredAndSortedFiles Host.toLowerCase Host.localeCompare
             [Demo.a_txt; Demo.sub; Demo.B_PNG] "" images by_name asc →
       FileItem.type f = file.
Proof.
  assert (images ≠ all) as Hfilter by discriminate.
  split; [exact Hfilter|].
  exact (proj1 (type_filter_drops_folders_search_keeps_matches Host.toLowerCase
                  Host.localeCompare [Demo.a_txt; Demo.sub; Demo.B_PNG] "" images
                  by_name asc Hfilter)).
Defined.

(** * Further properties *)

(** ** Splitting and joining *)

Section SplitJoin.
Variable c : ascii.
Implicit Types s t : string.

Lemma substring0_slice n s : Js.substring0 n s +:+ Js.slice n s = s.
Proof.
  revert s. induction n as [|n IH]; intros [|d s]; simpl; try done.
  by rewrite app_String, IH.
Qed.

Lemma split_app s t : Js.split c (s +:+ String c t) = Js.split c s ++ Js.split c t.
Proof.
  induction s as [|d s IH].
  - rewrite app_empty_l. simpl. by rewrite Ascii.eqb_refl.
  - rewrite app_String. simpl. rewrite IH.
    destruct (Ascii.eqb d c); [done|].
    pose proof (split_nonempty c s). by destruct (Js.split c s).
Qed.

(** A string that does not include the separator is its only segment. *)
Lemma split_without s : Js.includes s (String c "") = false → Js.split c s = [s].
Proof.
  induction s as [|d s IH]; [done|]. simpl.
  destruct (Ascii.eqb c d) eqn:Hcd; [done|]. simpl. intros H.
  rewrite Ascii.eqb_sym, Hcd, IH by done. done.
Qed.

Lemma join_cons sep s l : l ≠ [] → Js.join sep (s :: l) = s +:+ sep +:+ Js.join sep l.
Proof. by destruct l. Qed.

Lemma join_app sep (l1 l2 : list string) :
  l1 ≠ [] → l2 ≠ [] →
  Js.join sep (l1 ++ l2) = Js.join sep l1 +:+ sep +:+ Js.join sep l2.
Proof.
  intros H1 H2. induction l1 as [|s l1 IH]; [done|].
  destruct l1 as [|s' l1].
  - simpl app. by rewrite join_cons.
  - rewrite <- app_comm_cons, !join_cons, IH by (done || by destruct l1).
    by rewrite !app_assoc_string.
Qed.

Lemma join_split s : Js.join (String c "") (Js.split c s) = s.
Proof.
  induction s as [|d s IH]; [done|]. simpl.
  destruct (Ascii.eqb_spec d c) as [->|Hne].
  - rewrite join_cons by apply split_nonempty. by rewrite IH.
  - pose proof (split_nonempty c s) as Hs.
    destruct (Js.split c s) as [|h [|h' l]]; [done|..].
    + simpl in *. by rewrite IH.
    + rewrite join_cons in IH |- * by done. rewrite app_String. by rewrite IH.
Qed.
End SplitJoin.

(** ** Names, extensions and keys *)

(** X1. The two parts that [getFileNameAndExtension] returns make up the file
    name again, for a file and for a folder. *)
Theorem getFileNameAndExtension_parts (fileName : string) (isFile : bool) :
  (getFileNameAndExtension fileName isFile).1 +:+ (getFileNameAndExtension fileName isFile).2
  = fileName.
Proof.
  unfold getFileNameAndExtension.
  destruct isFile; simpl; [|apply app_empty_r].
  destruct (Js.lastIndexOf "." fileName <=? 0); simpl;
    [apply app_empty_r|apply substring0_slice].
Qed.

Lemma renamedKey_in_folder folderKey name newName :
  Js.includes name "/" = false →
  renamedKey (folderKey +:+ "/" +:+ name) newName = folderKey +:+ "/" +:+ newName.
Proof.
  intros Hname. rewrite renamedKey_replaces_last_segment. unfold replace_last_segment.
  change ("/" +:+ name) with (String "/" name).
  rewrite (split_app "/"), (split_without "/" name) by done.
  rewrite removelast_last, join_app by (done || apply split_nonempty).
  by rewrite (join_split "/").
Qed.

(** X2. The rename of an object whose name holds no slash keeps it in its
    folder: the new key is the folder of the old key followed by the new
    name; at the root, it is the new name. *)
Theorem rename_stays_in_folder (folderKey name newName : string) :
  Js.includes name "/" = false →
  renamedKey (folderKey +:+ "/" +:+ name) newName = folderKey +:+ "/" +:+ newName ∧
  renamedKey name newName = newName.
Proof.
  intros Hname. split; [by apply renamedKey_in_folder|].
  rewrite renamedKey_replaces_last_segment. unfold replace_last_segment.
  by rewrite (split_without "/" name).
Qed.

(** X3. The key of a folder ends with a slash, so its last segment is empty:
    the rename of a folder key sends the copy to a key inside the folder,
    the old key followed by the new name. *)
Theorem rename_of_folder_key_goes_inside (folderKey newName : string) :
  renamedKey (folderKey +:+ "/") newName = (folderKey +:+ "/") +:+ newName ∧
  Js.startsWith (renamedKey (folderKey +:+ "/") newName) (folderKey +:+ "/") = true.
Proof.
  assert (renamedKey (folderKey +:+ "/") newName = (folderKey +:+ "/") +:+ newName) as H.
  { rewrite app_assoc_string. exact (renamedKey_in_folder folderKey "" newName eq_refl). }
  split; [exact H|]. rewrite H. apply startsWith_app.
Qed.

(** ** Categories, icons and the displayed list *)

Section Categories.
Variable toLowerCase : string → string.
Variable localeCompare : string → string → Z.

Lemma type_filter_file filterType f :
  FileItem.type f = file →
  type_filter toLowerCase filterType f =
    match filterType with
    | images => Js.startsWith (shown_mimeType f) "image/"
    | videos => Js.startsWith (shown_mimeType f) "video/"
    | audio => Js.startsWith (shown_mimeType f) "audio/"
    | documents =>
        array_includes ["pdf"; "doc"; "docx"; "xls"; "xlsx"; "ppt"; "pptx"] (shown_extension toLowerCase f)
    | code =>
        array_includes ["js"; "ts"; "html"; "css"; "json"; "xml"; "txt"; "md";
                        "py"; "java"; "cpp"; "c"] (shown_extension toLowerCase f)
    | archives => array_includes ["zip"; "rar"; "7z"; "tar"; "gz"] (shown_extension toLowerCase f)
    | others =>
        negb (existsb (in_category (shown_mimeType f) (shown_extension toLowerCase f))
                [images; videos; audio; documents; code; archives])
    | all => true
    end.
Proof.
  intros Hkind. unfold type_filter. rewrite decide_False; [done|]. congruence.
Qed.
End Categories.

(** X4. Every file is kept by at least one of the seven type filters: no file
    is out of reach of the filters. *)
Theorem every_file_has_a_category (toLowerCase : string → string) (f : FileItem) :
  FileItem.type f = file →
  ∃ filterType,
    filterType ∈ [images; videos; audio; documents; code; archives; others] ∧
    type_filter toLowerCase filterType f = true.
Proof.
  intros Hkind.
  destruct (type_filter toLowerCase others f) eqn:Hothers;
    [exists others; split; [apply list_elem_of_In; simpl; tauto|done]|].
  rewrite type_filter_file in Hothers by done.
  apply negb_false_iff, existsb_exists in Hothers as (category & Hin & Hcat).
  exists category. split; [apply list_elem_of_In; simpl in *; tauto|].
  rewrite type_filter_file by done.
  simpl in Hin. destruct Hin as [<-|[<-|[<-|[<-|[<-|[<-|[]]]]]]]; try exact Hcat.
  simpl in Hcat |- *. unfold array_includes in *. simpl in *.
  repeat (apply orb_true_iff in Hcat as [->|Hcat]; [by rewrite ?orb_true_r|]).
  done.
Qed.

(** X5. The filters [code] and [others] overlap: both keep a file exactly when
    its extension is one of [py], [java], [cpp], [c], which the list of
    [code] has and the list inside [others] has not, and its MIME type is
    neither image, video nor audio. *)
Theorem code_and_others_overlap (toLowerCase : string → string) (f : FileItem) :
  FileItem.type f = file →
  (type_filter toLowerCase code f = true ∧ type_filter toLowerCase others f = true) ↔
  (array_includes ["py"; "java"; "cpp"; "c"] (shown_extension toLowerCase f) = true ∧
   Js.startsWith (shown_mimeType f) "image/" = false ∧
   Js.startsWith (shown_mimeType f) "video/" = false ∧
   Js.startsWith (shown_mimeType f) "audio/" = false).
Proof.
  intros Hkind. rewrite !type_filter_file by done.
  generalize (shown_extension toLowerCase f) (shown_mimeType f). intros e m.
  unfold array_includes. cbn [existsb in_category].
  destruct (Js.startsWith m "image/"), (Js.startsWith m "video/"),
    (Js.startsWith m "audio/");
    repeat match goal with
      | |- context [String.eqb e ?s] => destruct (String.eqb_spec e s) as [->|?]
      end;
    simpl; intuition congruence.
Qed.

(** X6. A file gets the plain [File] icon exactly when the filter [others]
    keeps it. *)
Theorem plain_icon_iff_others (toLowerCase : string → string) (f : FileItem) :
  FileItem.type f = file →
  getFileIcon toLowerCase f = Icon.File ↔ type_filter toLowerCase others f = true.
Proof.
  intros Hkind. rewrite type_filter_file by done.
  unfold getFileIcon. rewrite decide_False by congruence.
  fold (shown_extension toLowerCase f). fold (shown_mimeType f).
  generalize (shown_extension toLowerCase f) (shown_mimeType f). intros e m.
  cbn [existsb in_category].
  destruct (Js.startsWith m "image/"), (Js.startsWith m "video/"),
    (Js.startsWith m "audio/"), (array_includes _ e), (array_includes _ e),
    (array_includes _ e); simpl; intuition congruence.
Qed.

(** X7. An entry is displayed exactly when it is an entry of the input that
    passes the search (when there is a search term) and the type filter
    (when it is not [all]); with no search term and the filter [all], the
    displayed list is a rearrangement of the input. *)
Theorem displayed_entries (toLowerCase : string → string)
    (localeCompare : string → string → Z) (files : list FileItem) (searchTerm : string)
    (filterType : FileType) (sortBy : SortBy) (sortOrder : SortOrder) :
  (∀ f, f ∈ filteredAndSortedFiles toLowerCase localeCompare files searchTerm filterType
              sortBy sortOrder ↔
        f ∈ files ∧
        (searchTerm = "" ∨ search_filter toLowerCase searchTerm f = true) ∧
        (filterType = all ∨ type_filter toLowerCase filterType f = true)) ∧
  filteredAndSortedFiles toLowerCase localeCompare files "" all sortBy sortOrder ≡ₚ files.
Proof.
  split; [|apply sort_perm].
  intros f. unfold filteredAndSortedFiles. rewrite elem_of_sort.
  unfold filtered_files.
  assert (∀ l, f ∈ match Js.truthy (Some searchTerm) with
                   | Some _ => List.filter (search_filter toLowerCase searchTerm) l
                   | None => l
                   end ↔
               f ∈ l ∧ (searchTerm = "" ∨ search_filter toLowerCase searchTerm f = true))
    as Hsearch.
  { intros l. destruct searchTerm as [|c term]; simpl; [tauto|].
    rewrite !list_elem_of_In, filter_In. intuition congruence. }
  destruct (decide (filterType ≠ all)) as [Hne|Heq].
  - rewrite list_elem_of_In, filter_In, <- list_elem_of_In, Hsearch. tauto.
  - apply dec_stable in Heq. rewrite Hsearch. tauto.
Qed.

(** ** The selection *)

(** X8. Unchecking an entry removes every selected entry with its key and
    nothing else; checking an entry whose key is not selected and then
    unchecking it gives the selection back. *)
Theorem handleMultiSelect_uncheck (selectedFiles : list FileItem) (f : FileItem) :
  (∀ g, g ∈ handleMultiSelect selectedFiles f false ↔
        g ∈ selectedFiles ∧ FileItem.key g ≠ FileItem.key f) ∧
  ((∀ g, g ∈ selectedFiles → FileItem.key g ≠ FileItem.key f) →
   handleMultiSelect (handleMultiSelect selectedFiles f true) f false = selectedFiles).
Proof.
  unfold handleMultiSelect. split.
  - intros g. rewrite !list_elem_of_In, filter_In, negb_true_iff.
    destruct (String.eqb_spec (FileItem.key g) (FileItem.key f)); intuition congruence.
  - intros Hfresh. rewrite List.filter_app. simpl. rewrite String.eqb_refl. simpl.
    rewrite app_nil_r. apply forallb_filter_id, forallb_forall. intros g Hg.
    apply negb_true_iff, String.eqb_neq, Hfresh. by apply list_elem_of_In.
Qed.

(** ** The breadcrumbs *)

Section Breadcrumbs.
Implicit Types segments : list string.

Lemma split_join segments :
  segments ≠ [] → forallb segment_ok segments = true →
  Js.split "/" (Js.join "/" segments) = segments.
Proof.
  induction segments as [|s segments IH]; [done|]. intros _ Hok.
  simpl in Hok. apply andb_true_iff in Hok as [Hs Hok].
  apply andb_true_iff in Hs as [_ Hs%negb_true_iff].
  destruct segments as [|s' segments]; [by apply (split_without "/")|].
  rewrite join_cons by done.
  change ("/" +:+ Js.join "/" (s' :: segments)) with (String "/" (Js.join "/" (s' :: segments))).
  by rewrite (split_app "/"), (split_without "/" s), IH.
Qed.

Lemma pathSegments_path_of segments :
  segments ≠ [] → forallb segment_ok segments = true →
  pathSegments (path_of segments) = segments.
Proof.
  intros Hne Hok. unfold pathSegments, path_of.
  change "/" with (String "/" "") at 2.
  rewrite (split_app "/"), split_join by done. simpl.
  rewrite List.filter_app. simpl. rewrite app_nil_r.
  apply forallb_filter_id. rewrite forallb_forall in Hok |- *.
  intros s Hs. by apply Hok, andb_true_iff in Hs as [? _].
Qed.
End Breadcrumbs.

(** X9. In a path of well-formed segments (none empty, none with a slash, each
    followed by a slash), the segments of the breadcrumbs are the segments
    of the path, the breadcrumb of index [index] leads to the path of the
    first [index + 1] segments, which the current path begins with, and the
    last breadcrumb leads to the current path. *)
Theorem breadcrumbs_lead_up_the_path (segments : list string) (index : nat) :
  segments ≠ [] → forallb segment_ok segments = true →
  pathSegments (path_of segments) = segments ∧
  breadcrumb (path_of segments) index = path_of (take (index + 1) segments) ∧
  Js.startsWith (path_of segments) (breadcrumb (path_of segments) index) = true ∧
  breadcrumb (path_of segments) (List.length segments - 1) = path_of segments.
Proof.
  intros Hne Hok.
  assert (pathSegments (path_of segments) = segments) as Hsegments
    by by apply pathSegments_path_of.
  assert (∀ i, breadcrumb (path_of segments) i = path_of (take (i + 1) segments)) as Hcrumb.
  { intros i. unfold breadcrumb. by rewrite Hsegments. }
  split; [done|]. split; [done|]. split.
  - rewrite Hcrumb. unfold path_of.
    destruct (drop (index + 1) segments) as [|s rest] eqn:Hdrop.
    + rewrite <- (take_drop (index + 1) segments) at 1. rewrite Hdrop, app_nil_r.
      rewrite <- (app_empty_r (_ +:+ "/")) at 1. apply startsWith_app.
    + rewrite <- (take_drop (index + 1) segments) at 1. rewrite Hdrop.
      rewrite join_app; [|destruct segments; [done|by rewrite Nat.add_1_r]|done].
      rewrite !app_assoc_string. rewrite <- (app_assoc_string (Js.join "/" _) "/").
      apply startsWith_app.
  - rewrite Hcrumb. f_equal. apply take_ge. lia.
Qed.

(** ** The entries of a listing *)

Section Entries.
Context {World : Type} (P : Platform World).
Variable toLowerCase : string → string.
Variable localeCompare : string → string → Z.
Variable this : S3Service.

Lemma truthy_Some_iff o s : Js.truthy o = Some s ↔ o = Some s ∧ s ≠ "".
Proof.
  destruct o as [[|c t]|]; simpl; split; try done.
  - by intros [[= <-] ?].
  - intros [= <-]. done.
  - by intros [? _].
  - by intros [? _].
Qed.

Lemma push_folder_entry prefix files cp s files' s' :
  push_folder P prefix files cp s = (Return files', s') →
  (files' = files ∧
   ¬ ∃ p, Prefix cp = Some p ∧ p ≠ "" ∧
          Js.replace "/" "" (Js.slice (Js.length prefix) p) ≠ "") ∨
  ∃ f, files' = files ++ [f] ∧ folder_entry_of prefix cp f.
Proof.
  unfold push_folder.
  destruct (Js.truthy (Prefix cp)) as [p|] eqn:Hp.
  - apply truthy_Some_iff in Hp as [Hp Hne].
    destruct (Js.truthy (Some _)) as [n|] eqn:Hn.
    + apply truthy_Some_iff in Hn as [[= Hn] Hnn].
      intros (now & s1 & _ & [= <- _])%bind_Return. right.
      eexists. split; [done|]. unfold folder_entry_of. simpl. by rewrite Hn.
    + intros [= <- _]. left. split; [done|]. intros (p' & Hp' & _ & Hname).
      assert (p' = p) as -> by congruence.
      by destruct (Js.replace "/" "" (Js.slice (Js.length prefix) p)).
  - intros [= <- _]. left. split; [done|]. intros (p' & Hp' & Hne & _).
    rewrite Hp' in Hp. by destruct p'.
Qed.

Lemma push_file_entry prefix files o s files' s' :
  push_file P toLowerCase prefix files o s = (Return files', s') →
  (files' = files ∧
   ¬ ∃ k, Key o = Some k ∧ k ≠ "" ∧ k ≠ prefix ∧ Js.endsWith k "/" = false) ∨
  ∃ f, files' = files ++ [f] ∧ file_entry_of toLowerCase prefix o f.
Proof.
  unfold push_file.
  destruct (Js.truthy (Key o)) as [k|] eqn:Hk.
  - apply truthy_Some_iff in Hk as [Hk Hne].
    destruct (String.eqb_spec k prefix) as [->|Hprefix]; simpl.
    { intros [= <- _]. left. split; [done|]. intros (k' & Hk' & _ & ? & _). congruence. }
    destruct (Js.endsWith k "/") eqn:Hends; simpl.
    { intros [= <- _]. left. split; [done|]. intros (k' & Hk' & _ & _ & ?). congruence. }
    intros (lm & s1 & Hlm & [= <- _])%bind_Return. right.
    eexists. split; [done|]. unfold file_entry_of. simpl.
    repeat split; try done.
    + by destruct (Size o) as [[]|].
    + intros m Hm. by rewrite Hm.
    + intros d Hd. rewrite Hd in Hlm. by injection Hlm as <-.
  - intros [= <- _]. left. split; [done|]. intros (k' & Hk' & Hne & _).
    rewrite Hk' in Hk. by destruct k'.
Qed.

(** A loop that only appends keeps what it has and adds, for each element,
    what its body adds. *)
Lemma for_of_push {A} (added : A → FileItem → Prop) (skipped : A → Prop)
    (body : list FileItem → A → M World (list FileItem)) (l : list A) :
  (∀ acc x s acc' s', body acc x s = (Return acc', s') →
     (acc' = acc ∧ skipped x) ∨ ∃ f, acc' = acc ++ [f] ∧ added x f) →
  ∀ acc s acc' s', for_of l body acc s = (Return acc', s') →
  ∃ new, acc' = acc ++ new ∧
         Forall (λ f, ∃ x, x ∈ l ∧ added x f) new ∧
         ∀ x, x ∈ l → skipped x ∨ ∃ f, f ∈ new ∧ added x f.
Proof.
  intros Hbody. induction l as [|x l IH]; intros acc s acc' s'; simpl.
  - intros [= <- _]. exists []. rewrite app_nil_r. split; [done|].
    split; [constructor|]. intros x Hx. by apply elem_of_nil in Hx.
  - intros (acc1 & s1 & H1 & H2)%bind_Return.
    apply IH in H2 as (new & -> & Hnew & Hall).
    apply Hbody in H1 as [[-> Hskip]|(f & -> & Hf)].
    + exists new. split; [done|]. split.
      * eapply Forall_impl; [exact Hnew|]. intros g (y & Hy & Hg). exists y.
        split; [by right|done].
      * intros y [->|Hy]%elem_of_cons; [by left|by apply Hall].
    + exists (f :: new). rewrite <- app_assoc. split; [done|]. split.
      * constructor; [exists x; split; [by left|done]|].
        eapply Forall_impl; [exact Hnew|]. intros g (y & Hy & Hg). exists y.
        split; [by right|done].
      * intros y [->|Hy]%elem_of_cons.
        -- right. exists f. split; [by left|done].
        -- destruct (Hall y Hy) as [?|(g & Hg & ?)]; [by left|].
           right. exists g. split; [by right|done].
Qed.

(** The entries of a listing that returns, against the response *)
Lemma listFiles_entries prefix s items s' :
  listFiles P toLowerCase localeCompare this prefix s = (Return items, s') →
  ∃ response w,
    send P (s3Client this)
      (ListObjectsV2Command (this_bucketName this) (Some prefix) (Some "/") None)
      (world s) = (Return response, w) ∧
    (∀ f, f ∈ items →
       (∃ cp, cp ∈ default [] (CommonPrefixes response) ∧ folder_entry_of prefix cp f) ∨
       (∃ o, o ∈ default [] (Contents response) ∧ file_entry_of toLowerCase prefix o f)) ∧
    (∀ cp p, cp ∈ default [] (CommonPrefixes response) → Prefix cp = Some p → p ≠ "" →
       Js.replace "/" "" (Js.slice (Js.length prefix) p) ≠ "" →
       ∃ f, f ∈ items ∧ folder_entry_of prefix cp f) ∧
    (∀ o k, o ∈ default [] (Contents response) → Key o = Some k → k ≠ "" →
       k ≠ prefix → Js.endsWith k "/" = false →
       ∃ f, f ∈ items ∧ file_entry_of toLowerCase prefix o f).
Proof.
  unfold listFiles.
  intros (response & s1 & (w & Hsend & _)%client_send_Return & H)%rethrow_Return%bind_Return.
  apply bind_Return in H as (folders & s2 & Hfolders & H).
  apply bind_Return in H as (files & s3 & Hfiles & [= <- _]).
  exists response, w. split; [done|].
  assert (∃ new, folders = [] ++ new ∧
            Forall (λ f, ∃ cp, cp ∈ default [] (CommonPrefixes response) ∧
                               folder_entry_of prefix cp f) new ∧
            ∀ cp, cp ∈ default [] (CommonPrefixes response) →
              (¬ ∃ p, Prefix cp = Some p ∧ p ≠ "" ∧
                      Js.replace "/" "" (Js.slice (Js.length prefix) p) ≠ "") ∨
              ∃ f, f ∈ new ∧ folder_entry_of prefix cp f) as (new1 & -> & Hnew1 & Hall1).
  { destruct (CommonPrefixes response) as [l|].
    - exact (for_of_push _ _ _ l (push_folder_entry prefix) [] s1 folders s2 Hfolders).
    - injection Hfolders as <- _. exists []. split; [done|]. split; [constructor|].
      intros cp Hcp. by apply elem_of_nil in Hcp. }
  assert (∃ new, files = ([] ++ new1) ++ new ∧
            Forall (λ f, ∃ o, o ∈ default [] (Contents response) ∧
                              file_entry_of toLowerCase prefix o f) new ∧
            ∀ o, o ∈ default [] (Contents response) →
              (¬ ∃ k, Key o = Some k ∧ k ≠ "" ∧ k ≠ prefix ∧ Js.endsWith k "/" = false) ∨
              ∃ f, f ∈ new ∧ file_entry_of toLowerCase prefix o f) as (new2 & -> & Hnew2 & Hall2).
  { destruct (Contents response) as [l|].
    - exact (for_of_push _ _ _ l (push_file_entry prefix) _ s2 files s3 Hfiles).
    - injection Hfiles as <- _. exists []. rewrite app_nil_r. split; [done|].
      split; [constructor|]. intros o Ho. by apply elem_of_nil in Ho. }
  simpl. rewrite Forall_forall in Hnew1, Hnew2. split; [|split].
  - intros f [Hf|Hf]%elem_of_sort%elem_of_app; [left; by apply Hnew1|right; by apply Hnew2].
  - intros cp p Hcp Hp Hne Hname.
    destruct (Hall1 cp Hcp) as [Hno|(f & Hf & Hentry)]; [destruct Hno; eauto|].
    exists f. split; [|done]. apply elem_of_sort, elem_of_app. by left.
  - intros o k Ho Hk Hne Hprefix Hends.
    destruct (Hall2 o Ho) as [Hno|(f & Hf & Hentry)]; [destruct Hno; eauto 6|].
    exists f. split; [|done]. apply elem_of_sort, elem_of_app. by right.
Qed.
End Entries.

Section MoreStrings.
Variable c : ascii.

Lemma startsWith_slice s p : Js.startsWith s p = true → p +:+ Js.slice (Js.length p) s = s.
Proof.
  revert s. induction p as [|d p IH]; intros s; [done|]. simpl.
  destruct s as [|e s]; [done|].
  destruct (Ascii.eqb_spec d e) as [->|]; [|done].
  intros H. by rewrite app_String, IH.
Qed.

Lemma slice_empty n : Js.slice n "" = "".
Proof. by destruct n. Qed.

(** Without the separator there is one segment; with one segment there is
    no separator. *)
Lemma split_absent i s : 0 <= i → Js.lastIndexOf_from i c s = -1 → Js.split c s = [s].
Proof.
  revert i. induction s as [|d s IH]; intros i Hi; simpl; [done|].
  destruct (lastIndexOf_from_range c (i + 1) s) as [Hs|Hs].
  - rewrite Hs. simpl. destruct (Ascii.eqb d c); [lia|]. intros _.
    by rewrite (IH (i + 1)) by (lia || done).
  - destruct (Z.leb_spec 0 (Js.lastIndexOf_from (i + 1) c s)); lia.
Qed.

Lemma split_single i s h : 0 <= i → Js.split c s = [h] → Js.lastIndexOf_from i c s = -1.
Proof.
  revert i h. induction s as [|d s IH]; intros i h Hi; simpl; [done|].
  destruct (Ascii.eqb d c).
  - pose proof (split_nonempty c s). by destruct (Js.split c s).
  - destruct (Js.split c s) as [|h' [|h'' l]] eqn:Hsplit;
      [by destruct (split_nonempty c s)| |done].
    intros _. rewrite (IH (i + 1) h') by (done || lia). done.
Qed.

(** The last segment is what follows the last separator, and the whole
    string when there is none. *)
Lemma last_split_from i s :
  0 <= i →
  last (Js.split c s) = Some (Js.slice (Z.to_nat (Js.lastIndexOf_from i c s - i + 1)) s).
Proof.
  revert i. induction s as [|d s IH]; intros i Hi.
  - simpl. by rewrite slice_empty.
  - pose proof (IH (i + 1) ltac:(lia)) as IH'.
    pose proof (split_nonempty c s) as Hne.
    simpl. destruct (lastIndexOf_from_range c (i + 1) s) as [Hs|Hs].
    + rewrite Hs in IH' |- *. simpl.
      replace (Z.to_nat (-1 - (i + 1) + 1)) with 0%nat in IH' by lia. simpl in IH'.
      destruct (Ascii.eqb d c).
      * replace (Z.to_nat (i - i + 1)) with 1%nat by lia. simpl.
        rewrite <- IH'. by destruct (Js.split c s).
      * replace (Z.to_nat (-1 - i + 1)) with 0%nat by lia. simpl.
        by rewrite (split_absent (i + 1) s) by (lia || done).
    + destruct (Z.leb_spec 0 (Js.lastIndexOf_from (i + 1) c s)); [|lia].
      replace (Z.to_nat (Js.lastIndexOf_from (i + 1) c s - i + 1))
        with (S (Z.to_nat (Js.lastIndexOf_from (i + 1) c s - (i + 1) + 1))) by lia.
      simpl. rewrite <- IH'.
      destruct (Ascii.eqb d c); [by destruct (Js.split c s)|].
      destruct (Js.split c s) as [|h [|h' l]] eqn:Hsplit; [done| |done].
      pose proof (split_single (i + 1) s h ltac:(lia) Hsplit). lia.
Qed.

Lemma replace_trailing name :
  Js.includes name (String c "") = false →
  Js.replace (String c "") "" (name +:+ String c "") = name.
Proof.
  induction name as [|d name IH].
  - intros _. rewrite app_empty_l. simpl. by rewrite Ascii.eqb_refl.
  - simpl. destruct (Ascii.eqb c d) eqn:Hd; [done|]. simpl. intros H.
    by rewrite IH.
Qed.
End MoreStrings.

Lemma replace_trailing_slash name :
  Js.includes name "/" = false → Js.replace "/" "" (name +:+ "/") = name.
Proof. apply (replace_trailing "/"). Qed.

(** X10. The listing is complete: every object of the response whose key is not
    empty, is not the prefix itself and does not end with a slash is listed
    as a file under that key, with the key less the length of the prefix as
    its name and the size of the object (0 when absent) as its size; every
    common prefix with a folder name that is not empty is listed as a folder
    under that prefix. *)
Theorem listFiles_lists_every_object {World} (P : Platform World)
    (toLowerCase : string → string) (localeCompare : string → string → Z)
    (this : S3Service) (prefix : string) (s s' : State World) (items : list FileItem)
    (response : Output) (w : World) :
  send P (s3Client this)
    (ListObjectsV2Command (this_bucketName this) (Some prefix) (Some "/") None)
    (world s) = (Return response, w) →
  listFiles P toLowerCase localeCompare this prefix s = (Return items, s') →
  (∀ o k, o ∈ default [] (Contents response) → Key o = Some k →
     k ≠ "" → k ≠ prefix → Js.endsWith k "/" = false →
     ∃ f, f ∈ items ∧ FileItem.type f = file ∧ FileItem.key f = k ∧
          FileItem.name f = Js.slice (Js.length prefix) k ∧
          FileItem.size f = default 0 (Size o)) ∧
  (∀ cp p, cp ∈ default [] (CommonPrefixes response) → Prefix cp = Some p → p ≠ "" →
     Js.replace "/" "" (Js.slice (Js.length prefix) p) ≠ "" →
     ∃ f, f ∈ items ∧ FileItem.type f = folder ∧ FileItem.key f = p).
Proof.
  intros Hsend (response' & w' & Hsend' & _ & Hfolders & Hfiles)%listFiles_entries.
  rewrite Hsend in Hsend'. injection Hsend' as <- <-. split.
  - intros o k Ho Hk Hne Hprefix Hends.
    destruct (Hfiles o k Ho Hk Hne Hprefix Hends)
      as (f & Hf & Hkind & Hkey & _ & _ & _ & Hname & Hsize & _).
    exists f. assert (FileItem.key f = k) as Heq by congruence.
    rewrite <- Heq. done.
  - intros cp p Hcp Hp Hne Hname.
    destruct (Hfolders cp p Hcp Hp Hne Hname) as (f & Hf & Hkind & Hkey & _).
    exists f. repeat split; [done..|congruence].
Qed.

(** X11. The listing shows no marker: no entry has the empty key, no file entry
    has the key of the listed prefix itself or a key that ends with a slash,
    and no folder entry has the empty name. *)
Theorem listFiles_shows_no_marker {World} (P : Platform World)
    (toLowerCase : string → string) (localeCompare : string → string → Z)
    (this : S3Service) (prefix : string) (s s' : State World) (items : list FileItem)
    (f : FileItem) :
  listFiles P toLowerCase localeCompare this prefix s = (Return items, s') →
  f ∈ items →
  FileItem.key f ≠ "" ∧
  match FileItem.type f with
  | file => FileItem.key f ≠ prefix ∧ Js.endsWith (FileItem.key f) "/" = false
  | folder => FileItem.name f ≠ ""
  end.
Proof.
  intros (response & w & _ & Hitems & _)%listFiles_entries Hf.
  destruct (Hitems f Hf) as [(cp & _ & Hkind & _ & Hkey & _ & Hname & _)
                            |(o & _ & Hkind & _ & Hkey & Hprefix & Hends & _)];
    rewrite Hkind; done.
Qed.

(** X12. When the response keeps to the prefix, the key of every file entry is
    the prefix followed by its name, and the name is not empty; a folder
    entry whose key is the prefix, a name without slash and a slash has that
    name. *)
Theorem listFiles_names_within_prefix {World} (P : Platform World)
    (toLowerCase : string → string) (localeCompare : string → string → Z)
    (this : S3Service) (prefix : string) (s s' : State World) (items : list FileItem)
    (f : FileItem) :
  (∀ response w,
     send P (s3Client this)
       (ListObjectsV2Command (this_bucketName this) (Some prefix) (Some "/") None)
       (world s) = (Return response, w) →
     within prefix response = true) →
  listFiles P toLowerCase localeCompare this prefix s = (Return items, s') →
  f ∈ items →
  match FileItem.type f with
  | file => prefix +:+ FileItem.name f = FileItem.key f ∧ FileItem.name f ≠ ""
  | folder =>
      ∀ name, FileItem.key f = prefix +:+ name +:+ "/" → Js.includes name "/" = false →
              FileItem.name f = name
  end.
Proof.
  intros Hcontract Hrun Hf.
  pose proof (listFiles_keys_within_prefix P toLowerCase localeCompare this prefix s s'
                items Hcontract Hrun f Hf) as Hkey.
  apply listFiles_entries in Hrun as (response & w & _ & Hitems & _).
  destruct (Hitems f Hf) as [(cp & _ & Hkind & _ & _ & Hname & _)
                            |(o & _ & Hkind & _ & _ & Hprefix & _ & Hname & _)];
    rewrite Hkind.
  - intros name Heq Hslash. rewrite Hname, Heq, slice_app.
    by apply replace_trailing_slash.
  - rewrite Hname. pose proof (startsWith_slice _ _ Hkey) as Heq. split; [done|].
    intros Hempty. rewrite Hempty, app_empty_r in Heq. congruence.
Qed.

(** X13. The extension of a listed file is the lower case of what follows the
    last dot of its name, and of the whole name when it has no dot. When
    [getMimeType] returns a string for that extension (the entry of the
    table, or [application/octet-stream] for a name that the table neither
    holds nor inherits), that string is the MIME type of the entry. *)
Theorem listFiles_extension_after_last_dot {World} (P : Platform World)
    (toLowerCase : string → string) (localeCompare : string → string → Z)
    (this : S3Service) (prefix : string) (s s' : State World) (items : list FileItem)
    (f : FileItem) :
  listFiles P toLowerCase localeCompare this prefix s = (Return items, s') →
  f ∈ items → FileItem.type f = file →
  let after_dot :=
    Js.slice (Z.to_nat (Js.lastIndexOf "." (FileItem.name f) + 1)) (FileItem.name f) in
  FileItem.extension f = Some (toLowerCase after_dot) ∧
  ∀ m, getMimeType (default "" (Js.truthy (Some (toLowerCase after_dot)))) = MimeString m →
       FileItem.mimeType f = Some m.
Proof.
  intros (response & w & _ & Hitems & _)%listFiles_entries Hf Hkind after_dot.
  destruct (Hitems f Hf) as [(cp & _ & Hfolder & _)
                            |(o & _ & _ & _ & _ & _ & _ & _ & _ & Hext & Hmime & _)];
    [congruence|].
  rewrite (last_split_from "." 0) in Hext by done.
  rewrite Z.sub_0_r in Hext. simpl in Hext. fold after_dot in Hext.
  split; [exact Hext|]. intros m Hm. apply Hmime. by rewrite Hext.
Qed.

(** ** The handlers of the dashboard, again *)

Section Kept.
Context {World X : Type} (P : Platform World) (view : State World → X).
Variable toLowerCase : string → string.
Variable localeCompare : string → string → Z.
Variable this : S3Service.
Hypothesis kept_client_send : ∀ command s, view (client_send P this command s).2 = view s.
Hypothesis kept_new_Date : ∀ s, view (new_Date P s).2 = view s.

Lemma kept_bind {A B} (m : M World A) (k : A → M World B) :
  (∀ s, view (m s).2 = view s) → (∀ a s, view (k a s).2 = view s) →
  ∀ s, view (bind m k s).2 = view s.
Proof.
  intros Hm Hk s. unfold bind. specialize (Hm s).
  destruct (m s) as [[a|e] s1]; simpl in *; [by rewrite Hk|done].
Qed.

Lemma kept_try_catch {A} (m : M World A) h :
  (∀ s, view (m s).2 = view s) → (∀ e s, view (h e s).2 = view s) →
  ∀ s, view (try_catch m h s).2 = view s.
Proof.
  intros Hm Hh s. unfold try_catch. specialize (Hm s).
  destruct (m s) as [[a|e] s1]; simpl in *; [done|by rewrite Hh].
Qed.

Lemma kept_for_of {A B} (l : list A) (body : B → A → M World B) :
  (∀ acc x s, view (body acc x s).2 = view s) →
  ∀ acc s, view (for_of l body acc s).2 = view s.
Proof.
  intros Hbody. induction l as [|x l IH]; intros acc s; simpl; [done|].
  apply kept_bind; [apply Hbody|apply IH].
Qed.

Lemma kept_testConnection s : view (testConnection P this s).2 = view s.
Proof.
  revert s. unfold testConnection.
  apply kept_try_catch; [|done]. apply kept_bind; [apply kept_client_send|done].
Qed.

Lemma kept_listFiles prefix s :
  view (listFiles P toLowerCase localeCompare this prefix s).2 = view s.
Proof.
  revert s. unfold listFiles, push_folder, push_file.
  repeat first
    [ apply kept_try_catch; [|done]
    | apply kept_bind; [|intros ?]
    | apply kept_for_of; intros ? ?
    | apply kept_client_send | apply kept_new_Date
    | done
    | match goal with
      | |- ∀ s, view (match ?x with _ => _ end s).2 = view s => destruct x
      | |- ∀ s, view ((if ?x then _ else _) s).2 = view s => destruct x
      end ].
Qed.
End Kept.

Section UiKept.
Context {World : Type} (P : Platform World).
Variable toLowerCase : string → string.
Variable localeCompare : string → string → Z.
Variable this : S3Service.

Lemma ui_client_send command s : ui (client_send P this command s).2 = ui s.
Proof. unfold client_send. by destruct (send P _ _ _). Qed.

Lemma ui_new_Date s : ui (new_Date P s).2 = ui s.
Proof. unfold new_Date. by destruct (newDate P _). Qed.

Lemma ui_testConnection s : ui (testConnection P this s).2 = ui s.
Proof. apply kept_testConnection. apply ui_client_send. Qed.

Lemma ui_listFiles prefix s :
  ui (listFiles P toLowerCase localeCompare this prefix s).2 = ui s.
Proof. apply kept_listFiles; [apply ui_client_send|apply ui_new_Date]. Qed.
End UiKept.

Section SessionKept.
Context {World : Type} (P : Platform World).
Variable toLowerCase : string → string.
Variable localeCompare : string → string → Z.
Variable this : S3Service.

Lemma session_client_send command s :
  session (client_send (with_session P) this command s).2 = session s.
Proof.
  unfold client_send, session. simpl. by destruct (send P _ _ _).
Qed.

Lemma session_new_Date s : session (new_Date (with_session P) s).2 = session s.
Proof. unfold new_Date, session. simpl. by destruct (newDate P _). Qed.

Lemma session_testConnection s :
  session (testConnection (with_session P) this s).2 = session s.
Proof. apply kept_testConnection. apply session_client_send. Qed.

Lemma session_listFiles prefix s :
  session (listFiles (with_session P) toLowerCase localeCompare this prefix s).2 = session s.
Proof. apply kept_listFiles; [apply session_client_send|apply session_new_Date]. Qed.
End SessionKept.

(** X14. Loading a folder never throws and ends with [loading] off. When the
    listing returns, the view shows its entries and the path becomes the one
    asked for; when the listing throws, the entries and the path stay as
    they were. The selection is untouched either way. *)
Theorem loadFiles_never_throws {World} (P : Platform World)
    (toLowerCase : string → string) (localeCompare : string → string → Z)
    (creds : S3Credentials) (path : string) (s : State World) :
  let run := loadFiles P toLowerCase localeCompare (Some creds) path s in
  let listing :=
    listFiles P toLowerCase localeCompare (new_S3Service creds) path
      (on_state (setLoading true) s) in
  run.1 = Return tt ∧
  world run.2 = world listing.2 ∧ trace run.2 = trace listing.2 ∧
  ui_loading (ui run.2) = false ∧
  ui_selectedFile (ui run.2) = ui_selectedFile (ui s) ∧
  ui_selectedFiles (ui run.2) = ui_selectedFiles (ui s) ∧
  match listing.1 with
  | Return items => ui_files (ui run.2) = items ∧ ui_currentPath (ui run.2) = path
  | Throw _ =>
      ui_files (ui run.2) = ui_files (ui s) ∧
      ui_currentPath (ui run.2) = ui_currentPath (ui s)
  end.
Proof.
  intros run listing. subst run listing. unfold loadFiles.
  rewrite (bind_step (modify_ui (setLoading true)) _ s tt (on_state (setLoading true) s))
    by done.
  set (s0 := on_state (setLoading true) s).
  pose proof (ui_listFiles P toLowerCase localeCompare (new_S3Service creds) path s0) as Hui.
  unfold try_finally, try_catch.
  destruct (listFiles P toLowerCase localeCompare (new_S3Service creds) path s0)
    as [[items|e] s1] eqn:Hlisting.
  - erewrite bind_step by exact Hlisting. simpl in *. by rewrite Hui.
  - erewrite bind_Throw by exact Hlisting. simpl in *. by rewrite Hui.
Qed.

(** ** The download of a folder *)

Section FolderDownload.
Context {World : Type} (P : Platform World).
Variable this : S3Service.

Lemma replace_prefix s pat : Js.startsWith s pat = true → Js.replace pat "" s = Js.slice (Js.length pat) s.
Proof. intros H. destruct s; simpl; by rewrite H. Qed.

(** One turn of the loop of [downloadFolderContents] that returns *)
Lemma push_content_Return folderKey files o s files' s' :
  push_content P this folderKey files o s = (Return files', s') →
  trace s' = trace s ++ ((λ k, Sent (GetObjectCommand (this_bucketName this) k) None)
                           <$> downloadable_keys [o]) ∧
  ∃ new, files' = files ++ new ∧
         Forall (λ entry, ∃ k, k ∈ downloadable_keys [o] ∧
                               entry.1 = Js.replace folderKey "" k) new.
Proof.
  unfold push_content, downloadable_keys. simpl.
  assert (∀ (l : list string) (Q : string * bytes → Prop),
            ∃ new : list (string * bytes), files = files ++ new ∧ Forall Q new) as Hnone.
  { intros l Q. exists []. by rewrite app_nil_r. }
  destruct (Js.truthy (Key o)) as [k|]; simpl;
    [|intros [= <- <-]; rewrite app_nil_r; split; [done|apply (Hnone [])]].
  destruct (Js.endsWith k "/"); simpl;
    [intros [= <- <-]; rewrite app_nil_r; split; [done|apply (Hnone [])]|].
  intros (fileResponse & s1 & (w & _ & ->)%client_send_Return & H)%bind_Return.
  destruct (Body fileResponse) as [body|].
  - apply bind_Return in H as (arrayBuffer & s2 & Hbody & [= <- <-]).
    unfold settle in Hbody. injection Hbody as _ <-. split; [done|].
    eexists [_]. split; [done|]. apply Forall_singleton. exists k. split; [by left|done].
  - injection H as <- <-. split; [done|apply (Hnone [])].
Qed.

Lemma downloadable_keys_cons o contents :
  downloadable_keys (o :: contents) = downloadable_keys [o] ++ downloadable_keys contents.
Proof. unfold downloadable_keys. change (o :: contents) with ([o] ++ contents). apply omap_app. Qed.

Lemma for_of_push_content folderKey contents :
  ∀ files s files' s',
    for_of contents (push_content P this folderKey) files s = (Return files', s') →
    trace s' = trace s ++ ((λ k, Sent (GetObjectCommand (this_bucketName this) k) None)
                             <$> downloadable_keys contents) ∧
    ∃ new, files' = files ++ new ∧
           Forall (λ entry, ∃ k, k ∈ downloadable_keys contents ∧
                                 entry.1 = Js.replace folderKey "" k) new.
Proof.
  induction contents as [|o contents IH]; intros files s files' s'; cbn [for_of].
  - intros [= <- <-]. simpl. rewrite app_nil_r. split; [done|]. exists [].
    by rewrite app_nil_r.
  - intros (files1 & s1 & H1 & H2)%bind_Return.
    apply push_content_Return in H1 as (Ht1 & new1 & -> & Hnew1).
    apply IH in H2 as (Ht2 & new2 & -> & Hnew2).
    rewrite downloadable_keys_cons, fmap_app, Ht2, Ht1, <- !app_assoc.
    split; [done|]. exists (new1 ++ new2). split; [done|]. apply Forall_app. split.
    + eapply Forall_impl; [exact Hnew1|]. intros entry (k & Hk & ?). exists k.
      split; [|done]. apply elem_of_app. by left.
    + eapply Forall_impl; [exact Hnew2|]. intros entry (k & Hk & ?). exists k.
      split; [|done]. apply elem_of_app. by right.
Qed.
End FolderDownload.

(** X15. A download of the contents of a folder that returns has sent the list
    of the folder (without delimiter, so of everything below it) and then
    one get for each key of the response that is not empty and does not end
    with a slash, in the order of the response, and nothing else. Every path
    it returns is such a key with the first occurrence of the folder key
    taken out; for a key that begins with the folder key, the folder key
    followed by the path is the key again. *)
Theorem downloadFolderContents_gets_every_file {World} (P : Platform World)
    (this : S3Service) (folderKey : string) (s s' : State World) (response : Output)
    (w : World) (files : list (string * bytes)) :
  send P (s3Client this)
    (ListObjectsV2Command (this_bucketName this) (Some folderKey) None None) (world s)
  = (Return response, w) →
  downloadFolderContents P this folderKey s = (Return files, s') →
  let keys := downloadable_keys (default [] (Contents response)) in
  trace s' = trace s ++
    Sent (ListObjectsV2Command (this_bucketName this) (Some folderKey) None None) None
    :: ((λ k, Sent (GetObjectCommand (this_bucketName this) k) None) <$> keys) ∧
  Forall (λ entry, ∃ k, k ∈ keys ∧ entry.1 = Js.replace folderKey "" k ∧
                        (Js.startsWith k folderKey = true → folderKey +:+ entry.1 = k))
    files.
Proof.
  intros Hsend Hrun keys. subst keys. unfold downloadFolderContents in Hrun.
  apply rethrow_Return, bind_Return in Hrun as (response' & s1 & Hlist & Hloop).
  apply client_send_Return in Hlist as (w' & Hsend' & ->).
  rewrite Hsend in Hsend'. injection Hsend' as <- <-.
  assert (∀ k (entry : string * bytes),
            entry.1 = Js.replace folderKey "" k →
            Js.startsWith k folderKey = true → folderKey +:+ entry.1 = k) as Hpath.
  { intros k entry -> Hk. rewrite replace_prefix by done. by apply startsWith_slice. }
  destruct (Contents response) as [contents|]; simpl.
  - apply for_of_push_content in Hloop as (Ht & new & -> & Hnew). simpl in *.
    rewrite Ht, <- app_assoc. split; [done|].
    eapply Forall_impl; [exact Hnew|]. intros entry (k & Hk & Heq). eauto.
  - injection Hloop as <- <-. simpl. split; [done|constructor].
Qed.

Section EmptyFolder.
Context {World : Type} (P : Platform World).
Variable this : S3Service.

Lemma for_of_push_content_none folderKey contents files s :
  downloadable_keys contents = [] →
  for_of contents (push_content P this folderKey) files s = (Return files, s).
Proof.
  induction contents as [|o contents IH]; [done|].
  rewrite downloadable_keys_cons. intros [Ho Hrest]%app_eq_nil. cbn [for_of].
  erewrite bind_step; [by apply IH|].
  unfold push_content. unfold downloadable_keys in Ho. simpl in Ho.
  destruct (Js.truthy (Key o)) as [k|]; [|done].
  by destruct (Js.endsWith k "/").
Qed.
End EmptyFolder.

(** X16. The download of a folder below which the store lists no file (no key,
    or only keys that end with a slash) sends the list command and nothing
    else, saves no archive, and throws the error of the empty folder. *)
Theorem handleDownloadFolder_empty_folder {World} (P : Platform World)
    (zipBlob : list (string * bytes) → bytes) (creds : S3Credentials)
    (folder_ : FileItem) (s : State World) (response : Output) (w : World) :
  send P (s3Client (new_S3Service creds))
    (ListObjectsV2Command (bucketName creds) (Some (FileItem.key folder_)) None None)
    (world s) = (Return response, w) →
  downloadable_keys (default [] (Contents response)) = [] →
  handleDownloadFolder P zipBlob (Some creds) folder_ s
  = (Throw (JsError "Folder is empty or contains no downloadable files"),
     {| world := w;
        trace := trace s ++
          [Sent (ListObjectsV2Command (bucketName creds) (Some (FileItem.key folder_))
                   None None) None];
        ui := ui s |}).
Proof.
  intros Hsend Hnone. unfold handleDownloadFolder. rewrite catch_throw_same.
  assert (downloadFolderContents P (new_S3Service creds) (FileItem.key folder_) s
          = (Return [], {| world := w;
                           trace := trace s ++
                             [Sent (ListObjectsV2Command (bucketName creds)
                                      (Some (FileItem.key folder_)) None None) None];
                           ui := ui s |})) as Hcontents.
  { unfold downloadFolderContents, try_catch.
    change (bucketName creds) with (this_bucketName (new_S3Service creds)) in Hsend.
    erewrite bind_step by (unfold client_send; rewrite Hsend; reflexivity).
    destruct (Contents response) as [contents|]; [|done].
    by rewrite for_of_push_content_none. }
  by erewrite bind_step by exact Hcontents.
Qed.

(** ** The download of the selection *)

Section Selection.
Context {World : Type} (P : Platform World).
Variable toString : nat → string.
Variable zipBlob : list (string * bytes) → bytes.
Variable creds : S3Credentials.

Lemma handleDownload_trace f s :
  ∃ evs, trace (handleDownload P (Some creds) f s).2 = trace s ++ evs ∧
         omap sent_command evs = [GetObjectCommand (bucketName creds) (FileItem.key f)].
Proof.
  unfold handleDownload. rewrite catch_throw_same.
  unfold downloadFile, try_catch, bind, client_send, rethrow, throw, settle, emit, ret.
  destruct (send P _ _ _) as [[response|e] w]; simpl; [|by eexists [_]].
  destruct (Body response) as [[blob|e]|]; simpl.
  - rewrite <- app_assoc. by eexists [_; _].
  - by eexists [_].
  - by eexists [_].
Qed.

Lemma download_one_file toasts f s :
  FileItem.type f = file →
  ∃ toasts' evs,
    (download_one (handleDownload P (Some creds)) (handleDownloadFolder P zipBlob (Some creds))
       toasts f s).1 = Return toasts' ∧
    trace (download_one (handleDownload P (Some creds))
             (handleDownloadFolder P zipBlob (Some creds)) toasts f s).2 = trace s ++ evs ∧
    omap sent_command evs = [GetObjectCommand (bucketName creds) (FileItem.key f)].
Proof.
  intros Hkind. unfold download_one. rewrite Hkind.
  destruct (handleDownload_trace f s) as (evs & Ht & Hevs).
  unfold try_catch, bind.
  destruct (handleDownload P (Some creds) f s) as [[[]|e] s1]; simpl in *; eauto.
Qed.

(** The loop never throws, whatever the handlers do. *)
Lemma download_one_returns onDownload onDownloadFolder toasts f (s : State World) :
  ∃ toasts' s', download_one onDownload onDownloadFolder toasts f s = (Return toasts', s').
Proof.
  unfold download_one, try_catch, bind.
  destruct (match FileItem.type f with
            | file => onDownload f
            | folder => onDownloadFolder f
            end s) as [[[]|e] s1]; simpl; by eexists _, _.
Qed.

Lemma for_of_download_one_returns onDownload onDownloadFolder selected toasts
    (s : State World) :
  ∃ toasts', (for_of selected (download_one onDownload onDownloadFolder) toasts s).1
             = Return toasts'.
Proof.
  revert toasts s. induction selected as [|f selected IH]; intros toasts s; cbn [for_of];
    [by eexists|].
  destruct (download_one_returns onDownload onDownloadFolder toasts f s)
    as (toasts1 & s1 & H1).
  erewrite bind_step by exact H1. apply IH.
Qed.
Lemma selection_counted (selected : list FileItem) :
  selected ≠ [] →
  (0 <? List.length (List.filter (λ f, bool_decide (FileItem.type f = file)) selected))%nat
  || (0 <? List.length (List.filter (λ f, bool_decide (FileItem.type f = folder)) selected))%nat
  = true.
Proof.
  destruct selected as [|f selected]; [done|]. intros _. cbn [List.filter].
  destruct (FileItem.type f).
  - rewrite bool_decide_eq_true_2 by done. done.
  - rewrite bool_decide_eq_false_2 by done. rewrite bool_decide_eq_true_2 by done.
    apply orb_true_r.
Qed.
End Selection.

(** X17. The download of the selection never throws, whatever the handlers of
    the single downloads do: a failure is notified and the loop goes on, and
    for a selection that is not empty the last notification is the one of
    the started downloads, with the numbers of selected files and folders,
    whether downloads failed or not. For a selection of files, with the
    handlers of the dashboard, the calls of the client are one get for each
    selected file, in the order of the selection. *)
Theorem handleDownloadSelected_goes_on {World} (P : Platform World)
    (toString : nat → string) (zipBlob : list (string * bytes) → bytes)
    (onDownload onDownloadFolder : FileItem → M World unit)
    (creds : S3Credentials) (selected : list FileItem) (s : State World) :
  (∃ toasts,
     (handleDownloadSelected toString onDownload onDownloadFolder selected s).1
     = Return toasts ∧
     (selected ≠ [] →
      last toasts
      = Some (Toast.mk "Downloads Started"
                ("Started downloading "
                 +:+ toString (List.length
                                 (List.filter (λ f, bool_decide (FileItem.type f = file))
                                    selected))
                 +:+ " file(s) and "
                 +:+ toString (List.length
                                 (List.filter (λ f, bool_decide (FileItem.type f = folder))
                                    selected))
                 +:+ " folder(s)")
                false))) ∧
  (Forall (λ f, FileItem.type f = file) selected →
   ∃ evs,
     trace (handleDownloadSelected toString (handleDownload P (Some creds))
              (handleDownloadFolder P zipBlob (Some creds)) selected s).2 = trace s ++ evs ∧
     omap sent_command evs
     = (λ f, GetObjectCommand (bucketName creds) (FileItem.key f)) <$> selected).
Proof.
  split.
  - unfold handleDownloadSelected, bind.
    destruct (for_of_download_one_returns onDownload onDownloadFolder selected [] s)
      as (toasts & Hloop).
    destruct (for_of selected _ [] s) as [[toasts'|e] s1]; simpl in *; [|done].
    destruct (_ || _) eqn:Hcounted.
    + eexists. split; [done|]. intros _. apply last_snoc.
    + eexists. split; [done|]. intros Hselected.
      by rewrite selection_counted in Hcounted.
  - intros Hfiles.
    assert (∀ toasts s0, ∃ toasts' evs,
              (for_of selected
                 (download_one (handleDownload P (Some creds))
                    (handleDownloadFolder P zipBlob (Some creds))) toasts s0).1
              = Return toasts' ∧
              trace (for_of selected
                       (download_one (handleDownload P (Some creds))
                          (handleDownloadFolder P zipBlob (Some creds))) toasts s0).2
              = trace s0 ++ evs ∧
              omap sent_command evs
              = (λ f, GetObjectCommand (bucketName creds) (FileItem.key f)) <$> selected)
      as Hloop.
    { induction Hfiles as [|f selected Hf Hfiles IH]; intros toasts s0; simpl.
      - exists toasts, []. by rewrite app_nil_r.
      - destruct (download_one_file P zipBlob creds toasts f s0 Hf)
          as (toasts1 & evs1 & Hr1 & Ht1 & Hevs1).
        unfold bind. destruct (download_one _ _ toasts f s0) as [r1 s1]. simpl in *.
        subst r1. destruct (IH toasts1 s1) as (toasts2 & evs2 & Hr2 & Ht2 & Hevs2).
        exists toasts2, (evs1 ++ evs2). split; [done|]. split.
        + by rewrite Ht2, Ht1, app_assoc.
        + by rewrite omap_app, Hevs1, Hevs2. }
    destruct (Hloop [] s) as (toasts & evs & Hr & Ht & Hevs).
    exists evs. split; [|done]. unfold handleDownloadSelected, bind.
    destruct (for_of selected _ [] s) as [r s1]. simpl in *. subst r.
    by destruct (_ || _).
Qed.

(** ** The preview *)

(** X18. For a file whose MIME type is [application/json] or [application/xml]
    the preview fetches no URL: [loadPreview] sends nothing and leaves the
    URL of the preview as it was. The component keeps its state from one
    file to the next, so what [renderPreview] then frames is the URL that
    was loaded for an earlier file, and nothing is available when none
    was. *)
Theorem preview_keeps_url_for_json_and_xml {World} (P : Platform World)
    (credentials : option S3Credentials) (f : FileItem) (mimeType previewUrl : string)
    (s : State World) :
  FileItem.mimeType f = Some mimeType →
  array_includes ["application/json"; "application/xml"] mimeType = true →
  loadPreview P credentials f previewUrl s = (Return previewUrl, s) ∧
  renderPreview false previewUrl f
  = match previewUrl with
    | EmptyString => NotAvailable
    | _ => TextFrame previewUrl
    end.
Proof.
  intros Hmime Hincluded. unfold array_includes in Hincluded. simpl in Hincluded.
  assert (mimeType = "application/json" ∨ mimeType = "application/xml") as Hcases.
  { destruct (String.eqb_spec mimeType "application/json"); [by left|].
    destruct (String.eqb_spec mimeType "application/xml"); [by right|done]. }
  unfold loadPreview, renderPreview. rewrite Hmime.
  destruct Hcases as [-> | ->]; simpl;
    (split; [destruct credentials; [by destruct (decide _)|done]|by destruct previewUrl]).
Qed.

(** X19. The preview never throws and calls the store at most for one URL: what
    [loadPreview] adds to the trace is nothing, or one presigned get of the
    key of the file for 3600 seconds; a URL that could not be presigned
    leaves the URL of the preview as it was. *)
Theorem loadPreview_never_throws {World} (P : Platform World)
    (credentials : option S3Credentials) (f : FileItem) (previewUrl : string)
    (s : State World) :
  let run := loadPreview P credentials f previewUrl s in
  ∃ url, run.1 = Return url ∧
    (trace run.2 = trace s ∧ url = previewUrl ∨
     ∃ creds failure,
       credentials = Some creds ∧
       trace run.2 = trace s ++
         [Presigned (GetObjectCommand (bucketName creds) (FileItem.key f)) 3600 failure] ∧
       match failure with
       | Some _ => url = previewUrl
       | None => True
       end).
Proof.
  intros run. subst run. unfold loadPreview.
  destruct credentials as [creds|]; [|by eexists; split; [|left]].
  destruct (decide _); [by eexists; split; [|left]|].
  destruct (previewable _); [|by eexists; split; [|left]].
  cbv beta delta [try_catch getFileUrl rethrow throw client_getSignedUrl].
  destruct (getSignedUrl P (s3Client (new_S3Service creds))
              (GetObjectCommand (this_bucketName (new_S3Service creds)) (FileItem.key f))
              3600 (world s)) as [[url|e] w]; simpl.
  - exists url. split; [done|]. right. by exists creds, None.
  - exists previewUrl. split; [done|]. right. by exists creds, (Some e).
Qed.

(** ** The connection *)

Section ConnectionRuns.
Context {World : Type} (P : Platform World).

End ConnectionRuns.

Section ConnectRun.
Context {World : Type} (P : Platform World).
Variable toLowerCase : string → string.
Variable localeCompare : string → string → Z.

(** The state in which the first listing of a connection starts, from the
    state in which the connection test ended *)
Lemma handleConnect_run creds (s : State (World * Session.t)) :
  handleConnect P toLowerCase localeCompare creds s
  = match testConnection (with_session P) (new_S3Service creds)
            (on_state (setLoading true) s) with
    | (Throw e, s1) => (Throw e, on_state (setLoading false) s1)
    | (Return _, s1) =>
        match listFiles (with_session P) toLowerCase localeCompare (new_S3Service creds) ""
                (modify_session (setIsConnected true)
                   (modify_session (setCredentials (Some creds)) s1).2).2 with
        | (Throw e, s2) => (Throw e, on_state (setLoading false) s2)
        | (Return items, s2) =>
            (Return tt,
             on_state (setLoading false)
               (on_state (setCurrentPath "") (on_state (setFiles items) s2)))
        end
    end.
Proof.
  unfold handleConnect.
  rewrite (bind_step (modify_ui (setLoading true)) _ s tt (on_state (setLoading true) s))
    by done.
  set (s0 := on_state (setLoading true) s).
  unfold try_finally, try_catch.
  destruct (testConnection (with_session P) (new_S3Service creds) s0)
    as [[[]|e] s1] eqn:Htest.
  - erewrite bind_step by exact Htest.
    rewrite (bind_step (modify_session (setCredentials (Some creds))) _ s1 tt
               (modify_session (setCredentials (Some creds)) s1).2) by done.
    set (s2 := (modify_session (setCredentials (Some creds)) s1).2).
    rewrite (bind_step (modify_session (setIsConnected true)) _ s2 tt
               (modify_session (setIsConnected true) s2).2) by done.
    set (s3 := (modify_session (setIsConnected true) s2).2).
    destruct (listFiles (with_session P) toLowerCase localeCompare
                (new_S3Service creds) "" s3) as [[items|e] s4] eqn:Hlisting.
    + by erewrite bind_step by exact Hlisting.
    + by erewrite bind_Throw by exact Hlisting.
  - by erewrite bind_Throw by exact Htest.
Qed.

(** The session in which the first listing of a connection ends *)
Lemma session_connected creds (s1 : State (World * Session.t)) :
  session (listFiles (with_session P) toLowerCase localeCompare (new_S3Service creds) ""
             (modify_session (setIsConnected true)
                (modify_session (setCredentials (Some creds)) s1).2).2).2
  = Session.mk true (Some creds) (Session.stored (session s1)).
Proof. by rewrite session_listFiles. Qed.

(** The view in which the first listing of a connection ends *)
Lemma ui_connected creds (s1 : State (World * Session.t)) :
  ui (listFiles (with_session P) toLowerCase localeCompare (new_S3Service creds) ""
        (modify_session (setIsConnected true)
           (modify_session (setCredentials (Some creds)) s1).2).2).2
  = ui s1.
Proof. by rewrite ui_listFiles. Qed.
End ConnectRun.

(** X20. [handleConnect] ends with [loading] off and never touches the stored
    credentials. When the connection test throws, it throws the same error
    and the page stays as it was. When the test returns, the page is
    connected with the credentials before the first listing is asked for:
    if that listing throws, [handleConnect] throws the error of the listing
    and still leaves the page connected, with the entries and the path it
    had; if it returns, the page shows the listing of the root. *)
Theorem handleConnect_outcome {World} (P : Platform World)
    (toLowerCase : string → string) (localeCompare : string → string → Z)
    (creds : S3Credentials) (s : State (World * Session.t)) :
  let run := handleConnect P toLowerCase localeCompare creds s in
  let test :=
    testConnection (with_session P) (new_S3Service creds) (on_state (setLoading true) s) in
  let listing :=
    listFiles (with_session P) toLowerCase localeCompare (new_S3Service creds) ""
      (modify_session (setIsConnected true)
         (modify_session (setCredentials (Some creds)) test.2).2).2 in
  ui_loading (ui run.2) = false ∧
  Session.stored (session run.2) = Session.stored (session s) ∧
  match test.1 with
  | Throw e =>
      run.1 = Throw e ∧ trace run.2 = trace test.2 ∧
      Session.isConnected (session run.2) = Session.isConnected (session s) ∧
      Session.credentials (session run.2) = Session.credentials (session s) ∧
      ui_files (ui run.2) = ui_files (ui s) ∧
      ui_currentPath (ui run.2) = ui_currentPath (ui s)
  | Return _ =>
      trace run.2 = trace listing.2 ∧
      Session.isConnected (session run.2) = true ∧
      Session.credentials (session run.2) = Some creds ∧
      match listing.1 with
      | Throw e =>
          run.1 = Throw e ∧
          ui_files (ui run.2) = ui_files (ui s) ∧
          ui_currentPath (ui run.2) = ui_currentPath (ui s)
      | Return items =>
          run.1 = Return tt ∧
          ui_files (ui run.2) = items ∧ ui_currentPath (ui run.2) = ""
      end
  end.
Proof.
  intros run test listing. subst run test listing. rewrite handleConnect_run.
  pose proof (ui_testConnection (with_session P) (new_S3Service creds)
                (on_state (setLoading true) s)) as Hui.
  pose proof (session_testConnection P (new_S3Service creds)
                (on_state (setLoading true) s)) as Hsession.
  destruct (testConnection (with_session P) (new_S3Service creds)
              (on_state (setLoading true) s)) as [[[]|e] s1]; cbn [fst snd] in *.
  - pose proof (session_connected P toLowerCase localeCompare creds s1) as Hsession'.
    pose proof (ui_connected P toLowerCase localeCompare creds s1) as Hui'.
    destruct (listFiles (with_session P) toLowerCase localeCompare (new_S3Service creds) ""
                _) as [[items|e] s2]; cbn [fst snd] in *.
    + unfold session in *. simpl. rewrite Hsession', Hsession. done.
    + unfold session in *. simpl. rewrite Hsession', Hsession, Hui', Hui. done.
  - unfold session in *. simpl. rewrite Hsession, Hui. done.
Qed.



(** ** The further properties at work on the bucket *)

Lemma rename_stays_in_folder_witness :
  Js.includes "a.txt" "/" = false ∧
  renamedKey "docs/a.txt" "b.txt" = "docs/b.txt" ∧ renamedKey "a.txt" "b.txt" = "b.txt".
Proof.
  split; [reflexivity|].
  exact (rename_stays_in_folder "docs" "a.txt" "b.txt" eq_refl).
Defined.

Lemma every_file_has_a_category_witness :
  FileItem.type Demo.readme = file ∧
  ∃ filterType,
    filterType ∈ [images; videos; audio; documents; code; archives; others] ∧
    type_filter Host.toLowerCase filterType Demo.readme = true.
Proof.
  split; [reflexivity|].
  exact (every_file_has_a_category Host.toLowerCase Demo.readme eq_refl).
Defined.

Lemma code_and_others_overlap_witness :
  FileItem.type Tour.main_py = file ∧
  type_filter Host.toLowerCase code Tour.main_py = true ∧
  type_filter Host.toLowerCase others Tour.main_py = true.
Proof.
  split; [reflexivity|].
  apply (proj2 (code_and_others_overlap Host.toLowerCase Tour.main_py eq_refl)).
  vm_compute. auto.
Defined.

Lemma plain_icon_iff_others_witness :
  FileItem.type Demo.readme = file ∧
  type_filter Host.toLowerCase others Demo.readme = true ∧
  getFileIcon Host.toLowerCase Demo.readme = Icon.File.
Proof.
  assert (type_filter Host.toLowerCase others Demo.readme = true) as Hothers
    by (vm_compute; reflexivity).
  split; [reflexivity|]. split; [exact Hothers|].
  exact (proj2 (plain_icon_iff_others Host.toLowerCase Demo.readme eq_refl) Hothers).
Defined.

Lemma handleMultiSelect_uncheck_witness :
  handleMultiSelect (handleMultiSelect [Demo.a_txt] Demo.B_PNG true) Demo.B_PNG false
  = [Demo.a_txt].
Proof.
  apply (proj2 (handleMultiSelect_uncheck [Demo.a_txt] Demo.B_PNG)).
  intros g Hg. apply list_elem_of_In in Hg. destruct Hg as [<-|[]]. discriminate.
Defined.

Lemma breadcrumbs_lead_up_the_path_witness :
  pathSegments "docs/sub/" = ["docs"; "sub"] ∧
  breadcrumb "docs/sub/" 0 = "docs/" ∧
  Js.startsWith "docs/sub/" (breadcrumb "docs/sub/" 0) = true ∧
  breadcrumb "docs/sub/" 1 = "docs/sub/".
Proof.
  assert (["docs"; "sub"] ≠ ([] : list string)) as Hsegments by discriminate.
  exact (breadcrumbs_lead_up_the_path ["docs"; "sub"] 0 Hsegments eq_refl).
Defined.

Lemma listFiles_lists_every_object_witness :
  Demo.list_docs Demo.state = (Return Demo.listing, (Demo.list_docs Demo.state).2) ∧
  ∃ f, f ∈ Demo.listing ∧ FileItem.type f = file ∧ FileItem.key f = "docs/a.txt" ∧
       FileItem.name f = "a.txt" ∧ FileItem.size f = 1.
Proof.
  assert (Demo.list_docs Demo.state = (Return Demo.listing, (Demo.list_docs Demo.state).2))
    as Hrun by (vm_compute; reflexivity).
  split; [exact Hrun|].
  destruct (listFiles_lists_every_object MemS3.platform Host.toLowerCase Host.localeCompare
              Demo.service "docs/" Demo.state (Demo.list_docs Demo.state).2 Demo.listing
              (MemS3.list_objects Demo.bucket (Some "docs/") (Some "/") None) Demo.bucket
              eq_refl Hrun) as [Hfiles _].
  apply (Hfiles (MemS3.listed "docs/a.txt" (Demo.object "A")) "docs/a.txt").
  - apply list_elem_of_In. vm_compute. tauto.
  - reflexivity.
  - discriminate.
  - discriminate.
  - reflexivity.
Defined.

Lemma listFiles_shows_no_marker_witness :
  Demo.list_docs Demo.state = (Return Demo.listing, (Demo.list_docs Demo.state).2) ∧
  Demo.a_txt ∈ Demo.listing ∧
  FileItem.key Demo.a_txt ≠ "" ∧ FileItem.key Demo.a_txt ≠ "docs/" ∧
  Js.endsWith (FileItem.key Demo.a_txt) "/" = false.
Proof.
  assert (Demo.list_docs Demo.state = (Return Demo.listing, (Demo.list_docs Demo.state).2))
    as Hrun by (vm_compute; reflexivity).
  assert (Demo.a_txt ∈ Demo.listing) as Hin by (apply list_elem_of_In; simpl; tauto).
  split; [exact Hrun|]. split; [exact Hin|].
  exact (listFiles_shows_no_marker MemS3.platform Host.toLowerCase Host.localeCompare
           Demo.service "docs/" Demo.state (Demo.list_docs Demo.state).2 Demo.listing
           Demo.a_txt Hrun Hin).
Defined.

Lemma listFiles_names_within_prefix_witness :
  Demo.list_docs Demo.state = (Return Demo.listing, (Demo.list_docs Demo.state).2) ∧
  Demo.a_txt ∈ Demo.listing ∧
  "docs/" +:+ FileItem.name Demo.a_txt = FileItem.key Demo.a_txt ∧
  FileItem.name Demo.a_txt ≠ "".
Proof.
  assert (Demo.list_docs Demo.state = (Return Demo.listing, (Demo.list_docs Demo.state).2))
    as Hrun by (vm_compute; reflexivity).
  assert (Demo.a_txt ∈ Demo.listing) as Hin by (apply list_elem_of_In; simpl; tauto).
  split; [exact Hrun|]. split; [exact Hin|].
  apply (listFiles_names_within_prefix MemS3.platform Host.toLowerCase Host.localeCompare
           Demo.service "docs/" Demo.state (Demo.list_docs Demo.state).2 Demo.listing
           Demo.a_txt); [|exact Hrun|exact Hin].
  intros response w Hsend. vm_compute in Hsend. injection Hsend as <- _.
  vm_compute. reflexivity.
Defined.

Lemma listFiles_extension_after_last_dot_witness :
  Tour.list_root Demo.state
  = (Return [Tour.docs; Demo.readme], (Tour.list_root Demo.state).2) ∧
  FileItem.extension Demo.readme = Some "readme" ∧
  FileItem.mimeType Demo.readme = Some "application/octet-stream".
Proof.
  assert (Tour.list_root Demo.state
          = (Return [Tour.docs; Demo.readme], (Tour.list_root Demo.state).2))
    as Hrun by (vm_compute; reflexivity).
  assert (Demo.readme ∈ [Tour.docs; Demo.readme]) as Hin
    by (apply list_elem_of_In; simpl; tauto).
  split; [exact Hrun|].
  destruct (listFiles_extension_after_last_dot MemS3.platform Host.toLowerCase
              Host.localeCompare Demo.service "" Demo.state (Tour.list_root Demo.state).2
              [Tour.docs; Demo.readme] Demo.readme Hrun Hin eq_refl) as [Hext Hmime].
  split; [exact Hext|]. exact (Hmime "application/octet-stream" eq_refl).
Defined.

Lemma downloadFolderContents_gets_every_file_witness :
  Tour.download_docs Demo.state
  = (Return [("sub/x.md", [Byte.x58]); ("a.txt", [Byte.x41]);
             ("B.PNG", [Byte.x70; Byte.x6e; Byte.x67])],
     (Tour.download_docs Demo.state).2) ∧
  trace (Tour.download_docs Demo.state).2
  = [Sent (ListObjectsV2Command "b" (Some "docs/") None None) None;
     Sent (GetObjectCommand "b" "docs/sub/x.md") None;
     Sent (GetObjectCommand "b" "docs/a.txt") None;
     Sent (GetObjectCommand "b" "docs/B.PNG") None].
Proof.
  assert (Tour.download_docs Demo.state
          = (Return [("sub/x.md", [Byte.x58]); ("a.txt", [Byte.x41]);
                     ("B.PNG", [Byte.x70; Byte.x6e; Byte.x67])],
             (Tour.download_docs Demo.state).2))
    as Hrun by (vm_compute; reflexivity).
  split; [exact Hrun|].
  destruct (downloadFolderContents_gets_every_file MemS3.platform Demo.service "docs/"
              Demo.state (Tour.download_docs Demo.state).2
              (MemS3.list_objects Demo.bucket (Some "docs/") None None) Demo.bucket
              _ eq_refl Hrun) as [Htrace _].
  rewrite Htrace. vm_compute. reflexivity.
Defined.

Lemma handleDownloadFolder_empty_folder_witness :
  downloadable_keys
    (default [] (Contents (MemS3.list_objects Tour.bucket (Some "empty/") None None)))
  = [] ∧
  (handleDownloadFolder MemS3.platform Tour.zipBlob (Some Demo.credentials) Tour.empty
     Tour.state).1
  = Throw (JsError "Folder is empty or contains no downloadable files") ∧
  trace (handleDownloadFolder MemS3.platform Tour.zipBlob (Some Demo.credentials) Tour.empty
           Tour.state).2
  = [Sent (ListObjectsV2Command "b" (Some "empty/") None None) None].
Proof.
  assert (downloadable_keys
            (default [] (Contents (MemS3.list_objects Tour.bucket (Some "empty/") None None)))
          = []) as Hkeys by (vm_compute; reflexivity).
  split; [exact Hkeys|].
  rewrite (handleDownloadFolder_empty_folder MemS3.platform Tour.zipBlob Demo.credentials
             Tour.empty Tour.state
             (MemS3.list_objects Tour.bucket (Some "empty/") None None) Tour.bucket
             eq_refl Hkeys).
  split; reflexivity.
Defined.

Lemma handleDownloadSelected_goes_on_witness :
  ∃ evs,
    trace (handleDownloadSelected (λ n, String.string_of_list_ascii (repeat "|"%char n))
             (handleDownload MemS3.platform (Some Demo.credentials))
             (handleDownloadFolder MemS3.platform Tour.zipBlob (Some Demo.credentials))
             [Demo.a_txt; Demo.B_PNG] Demo.state).2 = trace Demo.state ++ evs ∧
    omap sent_command evs
    = [GetObjectCommand "b" "docs/a.txt"; GetObjectCommand "b" "docs/B.PNG"].
Proof.
  apply (proj2 (handleDownloadSelected_goes_on MemS3.platform
                  (λ n, String.string_of_list_ascii (repeat "|"%char n)) Tour.zipBlob
                  (handleDownload MemS3.platform (Some Demo.credentials))
                  (handleDownloadFolder MemS3.platform Tour.zipBlob (Some Demo.credentials))
                  Demo.credentials [Demo.a_txt; Demo.B_PNG] Demo.state)).
  repeat constructor.
Defined.

Lemma preview_keeps_url_for_json_and_xml_witness :
  loadPreview MemS3.platform (Some Demo.credentials) Tour.data_json
    "https://b.s3.amazonaws.com/docs/B.PNG" Demo.state
  = (Return "https://b.s3.amazonaws.com/docs/B.PNG", Demo.state) ∧
  renderPreview false "https://b.s3.amazonaws.com/docs/B.PNG" Tour.data_json
  = TextFrame "https://b.s3.amazonaws.com/docs/B.PNG".
Proof.
  exact (preview_keeps_url_for_json_and_xml MemS3.platform (Some Demo.credentials)
           Tour.data_json "application/json" "https://b.s3.amazonaws.com/docs/B.PNG"
           Demo.state eq_refl eq_refl).
Defined.
